(** * PoliCast: a shallow embedding of the application logic

    The development follows the TypeScript sources:
    - [types.ts]                       the data model (records below);
    - [services/geminiService.ts]      [getClient], [retryOperation],
                                       [generateContentKit], [searchRelatedImages];
    - [App.tsx]                        the news list and the saved-project collection;
    - [components/DetailView.tsx]      [handleGenerate], [handleLocalSave].

    Asynchronous code is written in a state-and-error monad over a world [W]
    that stands for the browser and the AI provider: awaiting a promise is a
    world transition that either resolves with a value or rejects with an
    error.  React state is threaded explicitly: a [setState (prev => ...)]
    call is the function it passes. *)

From Stdlib Require Import Ascii.
From stdpp Require Import base numbers list strings gmap pretty.

Set Default Proof Using "Type".

(** ** JavaScript strings *)

(** [s.includes(sub)] *)
Fixpoint includes (s sub : string) : bool :=
  String.prefix sub s ||
  match s with
  | EmptyString => false
  | String _ rest => includes rest sub
  end.

(** [s] ends with [suffix]: what a regular expression [/suffix$/] tests. *)
Fixpoint endsWith (s suffix : string) : bool :=
  String.eqb s suffix ||
  match s with
  | EmptyString => false
  | String _ rest => endsWith rest suffix
  end.

(** Truthiness of a string, and of a possibly undefined string. *)
Definition truthy (s : string) : bool := negb (String.eqb s "").

Definition truthy_opt (o : option string) : bool :=
  match o with
  | Some s => truthy s
  | None => false
  end.

(** [a || b] on possibly undefined strings. *)
Definition or_else (o : option string) (default : string) : string :=
  match o with
  | Some s => if truthy s then s else default
  | None => default
  end.

(** ** Arrays *)

Section Arrays.
Context {A : Type}.

Fixpoint findIndex_from (p : A → bool) (a : list A) (i : Z) : Z :=
  match a with
  | [] => -1
  | x :: rest => if p x then i else findIndex_from p rest (i + 1)
  end.

(** [a.findIndex(p)]: the index of the first element satisfying [p], or -1. *)
Definition findIndex (p : A → bool) (a : list A) : Z := findIndex_from p a 0.

Fixpoint filter_from (f : A → Z → list A → bool) (whole a : list A) (i : Z) : list A :=
  match a with
  | [] => []
  | x :: rest =>
      if f x i whole then x :: filter_from f whole rest (i + 1)
      else filter_from f whole rest (i + 1)
  end.

(** [a.filter((v, i, a) => ...)], the callback receiving the element, its
    index and the whole array. *)
Definition filter_indexed (f : A → Z → list A → bool) (a : list A) : list A :=
  filter_from f a a 0.

(** [a.some(p)] *)
Definition some (p : A → bool) (a : list A) : bool := existsb p a.

(** [a.slice(0, n)] *)
Definition slice0 (n : nat) (a : list A) : list A := take n a.
End Arrays.

(** ** Errors and promises *)

Module JsError.
(** The fields of a thrown value that the program reads.  Thrown values are
    objects whose [message], when present, is a string, as for [Error]
    instances and the provider's API errors.  [response_status] is
    [error.response?.status]. *)
Record t := mk {
  message : option string;
  status : option Z;
  response_status : option Z
}.
End JsError.

(** [new Error(msg)] *)
Definition Error (msg : string) : JsError.t :=
  JsError.mk (Some msg) None None.

Inductive Outcome (A : Type) : Type :=
  | Resolved (v : A)
  | Rejected (e : JsError.t).
Arguments Resolved {A} v.
Arguments Rejected {A} e.

(** An asynchronous computation over the world [W]. *)
Definition Async (W A : Type) : Type := W → Outcome A * W.

Definition ret {W A} (v : A) : Async W A := fun w => (Resolved v, w).

Definition throw {W A} (e : JsError.t) : Async W A := fun w => (Rejected e, w).

Definition bind {W A B} (m : Async W A) (k : A → Async W B) : Async W B :=
  fun w =>
    match m w with
    | (Resolved v, w') => k v w'
    | (Rejected e, w') => (Rejected e, w')
    end.

(** [try { body } catch (error) { handler }] *)
Definition try_catch {W A} (body : Async W A) (handler : JsError.t → Async W A) : Async W A :=
  fun w =>
    match body w with
    | (Resolved v, w') => (Resolved v, w')
    | (Rejected e, w') => handler e w'
    end.

(** A synchronous step that cannot fail. *)
Definition lift {W A} (f : W → A * W) : Async W A :=
  fun w => let '(v, w') := f w in (Resolved v, w').

(** A value that is already an outcome (a synchronous call that may throw). *)
Definition of_outcome {W A} (o : Outcome A) : Async W A := fun w => (o, w).

Declare Scope async_scope.
Delimit Scope async_scope with async.
Notation "'let*' x ':=' m 'in' k" := (bind m (fun x => k))
  (at level 10, x name, m at level 100, k at level 200) : async_scope.
Local Open Scope async_scope.

(** ** The data model ([types.ts]) *)

Module NewsItem.
Record t := mk {
  id : string;
  title : string;
  snippet : string;
  source : option string;
  url : option string;
  publishedDate : option string
}.
End NewsItem.

Module GeneratedContent.
Record t := mk {
  summaryEnglish : string;
  summaryBurmese : string;
  scriptBurmese : string;
  facebookPostBurmese : string;
  burmeseTitles : list string;
  visualPrompts : list string;
  imageQueries : list string
}.
End GeneratedContent.

Module GroundingImage.
Record t := mk {
  url : string;
  title : string;
  source : string
}.
End GroundingImage.

Module SavedProject.
Record t := mk {
  id : string;
  newsItem : NewsItem.t;
  generatedContent : option GeneratedContent.t;
  savedAt : string;
  groundingImages : list GroundingImage.t
}.
End SavedProject.

(** ** The AI provider's request and response, as far as the program reads them *)

Module Request.
Record t := mk {
  model : string;
  contents : string;
  googleSearch : bool;   (* config.tools = [{ googleSearch: {} }] *)
  jsonResponse : bool    (* config.responseMimeType and responseSchema *)
}.
End Request.

Module WebChunk.
Record t := mk { uri : option string; title : option string }.
End WebChunk.

Module GroundingChunk.
Record t := mk { web : option WebChunk.t }.
End GroundingChunk.

Module Candidate.
(** [groundingChunks] is [candidate.groundingMetadata?.groundingChunks]. *)
Record t := mk { groundingChunks : option (list GroundingChunk.t) }.
End Candidate.

Module Response.
Record t := mk {
  text : option string;
  candidates : option (list Candidate.t)
}.
End Response.

(** What [JSON.parse] can return for an import file.  The program casts an
    array to [SavedProject[]], so the array case carries projects. *)
Inductive JsonValue : Type :=
  | JsonArray (projects : list SavedProject.t)
  | JsonObject (keys : list string)
  | JsonString (s : string)
  | JsonNumber (n : Z)
  | JsonBool (b : bool)
  | JsonNull.

(** [Array.isArray(json)] *)
Definition isArray (json : JsonValue) : bool :=
  match json with
  | JsonArray _ => true
  | _ => false
  end.

(** ** The environment the program runs in

    Everything the sources call but do not define: the provider's
    [ai.models.generateContent], timers, the random number generator, the
    clock and the JSON codec. *)
Class Runtime (W : Type) := {
  (** [ai.models.generateContent(request)] *)
  generateContent : Request.t → Async W Response.t;
  (** [await new Promise(resolve => setTimeout(resolve, delay))] *)
  setTimeout : Z → W → W;
  (** [Math.random() * 1000], in the whole milliseconds a timer counts *)
  jitter : W → Z * W;
  (** [Date.now()] *)
  Date_now : W → Z * W;
  (** [new Date(ms).toISOString()] *)
  toISOString : Z → string;
  (** [JSON.parse(text) as GeneratedContent]; rejects on a syntax error *)
  JSON_parse_content : string → Outcome GeneratedContent.t;
  (** [JSON.parse(text) as Omit<NewsItem, 'id'>[]]; the [id] of a parsed
      item is overwritten before use *)
  JSON_parse_news : string → Outcome (list NewsItem.t);
  (** [JSON.stringify(savedProjects)] *)
  JSON_stringify : list SavedProject.t → string;
  (** [JSON.parse(text)]; rejects on a syntax error *)
  JSON_parse : string → Outcome JsonValue
}.

(** ** [services/geminiService.ts] *)

(** [const isRateLimit = error.message?.includes('429') ||
    error.message?.includes('Too Many Requests') || error.status === 429 ||
    error.response?.status === 429] *)
Definition isRateLimit (error : JsError.t) : bool :=
  match JsError.message error with Some m => includes m "429" | None => false end
  || match JsError.message error with Some m => includes m "Too Many Requests" | None => false end
  || bool_decide (JsError.status error = Some 429%Z)
  || bool_decide (JsError.response_status error = Some 429%Z).

Definition Max_retries_exceeded : JsError.t := Error "Max retries exceeded".

Section Retry.
Context {W : Type} `{!Runtime W} {T : Type}.
Variable operation : Async W T.
Variable retries : nat.
Variable baseDelay : Z.

(** The wait between attempt [i] and the next one:
    [baseDelay * Math.pow(2, i) + Math.random() * 1000]. *)
Definition backoff (i : nat) (w : W) : W :=
  let '(j, w') := jitter w in
  let delay := (baseDelay * 2 ^ Z.of_nat i + j)%Z in
  setTimeout delay w'.

(** The loop [for (let i = 0; i < retries; i++)], entered at index [i] with
    [remaining = retries - i] iterations left. *)
Fixpoint retryLoop (remaining i : nat) (w : W) : Outcome T * W :=
  match remaining with
  | O => (Rejected Max_retries_exceeded, w)
  | S remaining' =>
      match operation w with
      | (Resolved v, w1) => (Resolved v, w1)
      | (Rejected error, w1) =>
          if isRateLimit error && bool_decide (Z.of_nat i < Z.of_nat retries - 1)%Z
          then retryLoop remaining' (S i) (backoff i w1)
          else (Rejected error, w1)
      end
  end.

Definition retryOperation_with : Async W T := retryLoop retries 0.

(** [RateLimited i k w w']: from the world [w], the [k] attempts numbered
    [i .. i+k-1] all reject with a rate-limit error, each followed by its
    wait; [w'] is the world in which attempt [i+k] would start. *)
Inductive RateLimited : nat → nat → W → W → Prop :=
  | RateLimited_nil i w : RateLimited i 0 w w
  | RateLimited_cons i k w error w1 w' :
      operation w = (Rejected error, w1) →
      isRateLimit error = true →
      RateLimited (S i) k (backoff i w1) w' →
      RateLimited i (S k) w w'.
End Retry.

(** [retryOperation(operation)] with the default [retries = 3] and
    [baseDelay = 2000], as every caller uses it. *)
Definition retryOperation {W} `{!Runtime W} {T} (operation : Async W T) : Async W T :=
  retryOperation_with operation 3 2000.

Section GeminiService.
Context {W : Type} `{!Runtime W}.

(** [process.env.API_KEY] *)
Variable API_KEY : option string.

(** [const apiKey = process.env.API_KEY || ''] *)
Definition apiKey : string := or_else API_KEY "".

(** The client holds nothing the program reads but its key. *)
Record GoogleGenAI := { client_apiKey : string }.

Definition getClient : Outcome GoogleGenAI :=
  if negb (truthy apiKey)
  then Rejected (Error "API Key not found in environment variables")
  else Resolved {| client_apiKey := apiKey |}.

(** The prompt of [generateContentKit]: the interpolated fields of the news
    item, followed by the fixed task list (its wording is not read by the
    program and is left out). *)
Definition kitPrompt (newsItem : NewsItem.t) : string :=
  "Act as a professional content creator for political news targeting a Burmese audience. "
  +:+ "I have this news item: Title: " +:+ NewsItem.title newsItem
  +:+ " Snippet: " +:+ NewsItem.snippet newsItem
  +:+ " Source: " +:+ default "undefined" (NewsItem.source newsItem)
  +:+ " Please perform the following tasks: ...".

(** The request of [generateContentKit]. *)
Definition kitRequest (newsItem : NewsItem.t) : Request.t :=
  {| Request.model := "gemini-3-pro-preview";
     Request.contents := kitPrompt newsItem;
     Request.googleSearch := false;
     Request.jsonResponse := true |}.

Definition generateContentKit (newsItem : NewsItem.t) : Async W GeneratedContent.t :=
  let* ai := of_outcome getClient in
  (* the catch clause logs the error and throws it again *)
  try_catch
    (let* response := retryOperation (generateContent (kitRequest newsItem)) in
     match Response.text response with
     | Some text =>
         if truthy text then of_outcome (JSON_parse_content text)
         else throw (Error "No content generated")
     | None => throw (Error "No content generated")
     end)
    (fun error => throw error).

(** [items.map((item, index) => ({...item, id: `news-${Date.now()}-${index}`}))] *)
Fixpoint addIds (items : list NewsItem.t) (index : nat) (w : W) : list NewsItem.t * W :=
  match items with
  | [] => ([], w)
  | item :: rest =>
      let '(now, w1) := Date_now w in
      let item' :=
        {| NewsItem.id := "news-" +:+ pretty now +:+ "-" +:+ pretty index;
           NewsItem.title := NewsItem.title item;
           NewsItem.snippet := NewsItem.snippet item;
           NewsItem.source := NewsItem.source item;
           NewsItem.url := NewsItem.url item;
           NewsItem.publishedDate := NewsItem.publishedDate item |} in
      let '(rest', w2) := addIds rest (S index) w1 in
      (item' :: rest', w2)
  end.

Definition fetchPoliticalNews : Async W (list NewsItem.t) :=
  let* ai := of_outcome getClient in
  try_catch
    (let* response :=
       retryOperation
         (generateContent
            {| Request.model := "gemini-3-flash-preview";
               Request.contents :=
                 "Find the top 10 latest hot political news headlines from around the world from the last 24 hours. "
                 +:+ "Focus on major geopolitical events, elections, or major policy shifts. Return a list JSON.";
               Request.googleSearch := true;
               Request.jsonResponse := true |}) in
     match Response.text response with
     | Some text =>
         if truthy text
         then let* items := of_outcome (JSON_parse_news text) in
              lift (addIds items 0)
         else ret []
     | None => ret []
     end)
    (fun error => throw error).

(** The test of [chunks.forEach]: [chunk.web?.uri &&
    (chunk.web.uri.match(/\.(jpeg|jpg|gif|png|webp)$/) || chunk.web.title)] *)
Definition isImageUri (uri : string) : bool :=
  endsWith uri ".jpeg" || endsWith uri ".jpg" || endsWith uri ".gif"
  || endsWith uri ".png" || endsWith uri ".webp".

Definition chunkImage (chunk : GroundingChunk.t) : option GroundingImage.t :=
  match GroundingChunk.web chunk with
  | Some web =>
      match WebChunk.uri web with
      | Some uri =>
          if truthy uri && (isImageUri uri || truthy_opt (WebChunk.title web))
          then Some {| GroundingImage.url := uri;
                       GroundingImage.title := or_else (WebChunk.title web) "Source Link";
                       GroundingImage.source := or_else (WebChunk.title web) "Web Result" |}
          else None
      | None => None
      end
  | None => None
  end.

(** The array [images] after [chunks.forEach(...)]. *)
Definition collectImages (chunks : list GroundingChunk.t) : list GroundingImage.t :=
  omap chunkImage chunks.

(** The callback [(v,i,a) => a.findIndex(v2 => (v2.url === v.url)) === i] *)
Definition firstWithUrl (v : GroundingImage.t) (i : Z) (a : list GroundingImage.t) : bool :=
  Z.eqb (findIndex (fun v2 => String.eqb (GroundingImage.url v2) (GroundingImage.url v)) a) i.

(** [images.filter(firstWithUrl)] *)
Definition uniqueImages (images : list GroundingImage.t) : list GroundingImage.t :=
  filter_indexed firstWithUrl images.

(** [response.candidates?.[0]?.groundingMetadata?.groundingChunks] *)
Definition groundingChunksOf (response : Response.t) : option (list GroundingChunk.t) :=
  match Response.candidates response with
  | Some (candidate :: _) => Candidate.groundingChunks candidate
  | _ => None
  end.

(** What [searchRelatedImages] returns once the response has arrived. *)
Definition imagesOfResponse (response : Response.t) : list GroundingImage.t :=
  let images :=
    match groundingChunksOf response with
    | Some chunks => collectImages chunks
    | None => []
    end in
  slice0 10 (uniqueImages images).

(** The request of [searchRelatedImages]:
    [const searchQuery = queries.length > 0 ? queries[0] : "political news"]. *)
Definition imageSearchRequest (queries : list string) : Request.t :=
  let searchQuery := match queries with q :: _ => q | [] => "political news" end in
  {| Request.model := "gemini-3-flash-preview";
     Request.contents := "Find relevant news images for: " +:+ searchQuery;
     Request.googleSearch := true;
     Request.jsonResponse := false |}.

Definition searchRelatedImages (queries : list string) : Async W (list GroundingImage.t) :=
  let* ai := of_outcome getClient in
  try_catch
    (let* response := retryOperation (generateContent (imageSearchRequest queries)) in
     ret (imagesOfResponse response))
    (fun error => ret []).
End GeminiService.

(** ** [App.tsx] *)

Module App.
(** The state of the [App] component that its handlers read and write. *)
Record t := mk {
  news : list NewsItem.t;
  loadingNews : bool;
  errorMsg : option string;
  savedProjects : list SavedProject.t
}.
End App.

(** The name of the single local-storage key. *)
Definition policast_saved : string := "policast_saved".

Section AppLogic.
Context {W : Type} `{!Runtime W}.
Variable API_KEY : option string.

(** The initial value of [savedProjects]:
    [const local = localStorage.getItem('policast_saved');
     return local ? JSON.parse(local) : []] *)
Definition initialSavedProjects (localStorage : gmap string string) : Outcome JsonValue :=
  match localStorage !! policast_saved with
  | Some local => if truthy local then JSON_parse local else Resolved (JsonArray [])
  | None => Resolved (JsonArray [])
  end.

(** The effect run whenever [savedProjects] changes:
    [localStorage.setItem('policast_saved', JSON.stringify(savedProjects))] *)
Definition syncSavedProjects (savedProjects : list SavedProject.t)
    (localStorage : gmap string string) : gmap string string :=
  <[policast_saved := JSON_stringify savedProjects]> localStorage.

(** The updater that [handleFetchNews] passes to [setNews]. *)
Definition mergeNews (items prevNews : list NewsItem.t) : list NewsItem.t :=
  let existingTitles : gset string := list_to_set (NewsItem.title <$> prevNews) in
  let uniqueNewItems := filter (fun item => NewsItem.title item ∉ existingTitles) items in
  uniqueNewItems ++ prevNews.

Definition handleFetchNews (st : App.t) (w : W) : App.t * W :=
  match fetchPoliticalNews API_KEY w with
  | (Resolved items, w') =>
      ({| App.news := mergeNews items (App.news st);
          App.loadingNews := false;
          App.errorMsg := None;
          App.savedProjects := App.savedProjects st |}, w')
  | (Rejected e, w') =>
      let busy :=
        match JsError.message e with
        | Some m => includes m "429" || includes m "Too Many Requests"
        | None => false
        end in
      ({| App.news := App.news st;
          App.loadingNews := false;
          App.errorMsg :=
            Some (if busy
                  then "High traffic detected. The AI is busy. Please wait a minute and try again."
                  else "Failed to load news. Please check your internet connection.");
          App.savedProjects := App.savedProjects st |}, w')
  end.

(** The news list of a session in which the given batches were fetched, in
    order, starting from the empty list. *)
Definition newsAfter (batches : list (list NewsItem.t)) : list NewsItem.t :=
  foldl (fun news items => mergeNews items news) [] batches.

(** The updater that [handleProjectSave] passes to [setSavedProjects]. *)
Definition handleProjectSave (project : SavedProject.t) (prev : list SavedProject.t)
    : list SavedProject.t :=
  let exists_ := findIndex (fun p => String.eqb (SavedProject.id p) (SavedProject.id project)) prev in
  if bool_decide (exists_ >= 0)%Z
  then <[Z.to_nat exists_ := project]> prev
  else project :: prev.

(** [deleteProject]; [confirmed] is the answer to the confirmation dialog. *)
Definition deleteProject (id : string) (confirmed : bool) (prev : list SavedProject.t)
    : list SavedProject.t :=
  if confirmed
  then filter (fun p => SavedProject.id p ≠ id) prev
  else prev.

(** The updater of [handleGlobalImport] for an array payload. *)
Definition mergeImported (json prev : list SavedProject.t) : list SavedProject.t :=
  let newItems :=
    filter (fun j => some (fun p => String.eqb (SavedProject.id p) (SavedProject.id j)) prev = false)
           json in
  newItems ++ prev.

(** [handleGlobalImport]: [file] is the text of the selected file
    ([e.target.files?.[0]], none when the dialog was cancelled), as the
    reader hands it to [onload]; the result is the collection and the alert
    shown, if any. *)
Definition handleGlobalImport (file : option string) (prev : list SavedProject.t)
    : list SavedProject.t * option string :=
  match file with
  | None => (prev, None)
  | Some text =>
      match JSON_parse text with
      | Resolved (JsonArray json) =>
          (mergeImported json prev,
           Some ("Imported " +:+ pretty (length json) +:+ " projects."))
      | Resolved _ => (prev, Some "Invalid JSON format. Expected an array of projects.")
      | Rejected _ => (prev, Some "Failed to parse JSON file.")
      end
  end.
End AppLogic.

(** ** [components/DetailView.tsx] *)

Module DetailView.
Record props := mk_props {
  newsItem : NewsItem.t;
  existingProject : option SavedProject.t
}.

Record t := mk {
  loading : bool;
  content : option GeneratedContent.t;
  groundingImages : list GroundingImage.t;
  error : option string
}.
End DetailView.

Section DetailViewLogic.
Context {W : Type} `{!Runtime W}.
Variable API_KEY : option string.

(** The parent's state and the [onSave] callback it passes down. *)
Context {P : Type}.
Variable onSave : SavedProject.t → P → P.

(** The component's state when it is mounted. *)
Definition initialDetailView (p : DetailView.props) : DetailView.t :=
  {| DetailView.loading := false;
     DetailView.content :=
       match DetailView.existingProject p with
       | Some existing => SavedProject.generatedContent existing
       | None => None
       end;
     DetailView.groundingImages :=
       match DetailView.existingProject p with
       | Some existing => SavedProject.groundingImages existing
       | None => []
       end;
     DetailView.error := None |}.

(** [existingProject?.id || `proj-${Date.now()}`] *)
Definition projectId (p : DetailView.props) (w : W) : string * W :=
  match DetailView.existingProject p with
  | Some existing =>
      if truthy (SavedProject.id existing) then (SavedProject.id existing, w)
      else let '(now, w') := Date_now w in ("proj-" +:+ pretty now, w')
  | None => let '(now, w') := Date_now w in ("proj-" +:+ pretty now, w')
  end.

(** The project that [handleGenerate] and [handleLocalSave] build. *)
Definition buildProject (p : DetailView.props) (content : GeneratedContent.t)
    (images : list GroundingImage.t) (w : W) : SavedProject.t * W :=
  let '(id, w1) := projectId p w in
  let '(now, w2) := Date_now w1 in
  ({| SavedProject.id := id;
      SavedProject.newsItem := DetailView.newsItem p;
      SavedProject.generatedContent := Some content;
      SavedProject.savedAt := toISOString now;
      SavedProject.groundingImages := images |}, w2).

Definition generationFailed (st : DetailView.t) : DetailView.t :=
  {| DetailView.loading := false;
     DetailView.content := DetailView.content st;
     DetailView.groundingImages := DetailView.groundingImages st;
     DetailView.error := Some "Failed to generate content. Please try again." |}.

Definition handleGenerate (p : DetailView.props) (st : DetailView.t) (parent : P) (w : W)
    : DetailView.t * P * W :=
  match generateContentKit API_KEY (DetailView.newsItem p) w with
  | (Rejected _, w1) => (generationFailed st, parent, w1)
  | (Resolved generated, w1) =>
      let search : Async W (list GroundingImage.t) :=
        match GeneratedContent.imageQueries generated with
        | [] => ret []
        | _ :: _ => searchRelatedImages API_KEY (GeneratedContent.imageQueries generated)
        end in
      match search w1 with
      | (Rejected _, w2) => (generationFailed st, parent, w2)
      | (Resolved images, w2) =>
          let '(project, w3) := buildProject p generated images w2 in
          ({| DetailView.loading := false;
              DetailView.content := Some generated;
              DetailView.groundingImages := images;
              DetailView.error := None |},
           onSave project parent, w3)
      end
  end.

(** [handleLocalSave]: the explicit save button. *)
Definition handleLocalSave (p : DetailView.props) (st : DetailView.t) (parent : P) (w : W)
    : P * W :=
  match DetailView.content st with
  | None => (parent, w)
  | Some content =>
      let '(project, w') := buildProject p content (DetailView.groundingImages st) w in
      (onSave project parent, w')
  end.
End DetailViewLogic.

(** ** The rest of the components

    The parts of the sources that the handlers above do not reach: the request
    of the news fetch by name, the navigation between the three views, the
    resizable panes and the rendering of the script. *)

(** The request of [fetchPoliticalNews]. *)
Definition newsRequest : Request.t :=
  {| Request.model := "gemini-3-flash-preview";
     Request.contents :=
       "Find the top 10 latest hot political news headlines from around the world from the last 24 hours. "
       +:+ "Focus on major geopolitical events, elections, or major policy shifts. Return a list JSON.";
     Request.googleSearch := true;
     Request.jsonResponse := true |}.

(** *** Navigation ([App.tsx]) *)

(** [enum ViewState] *)
Inductive ViewState : Type := DISCOVER | DETAIL | SAVED.

#[global] Instance ViewState_eq_dec : EqDecision ViewState.
Proof. solve_decision. Defined.

Module Nav.
(** The state of [App] that decides which view is rendered. *)
Record t := mk {
  view : ViewState;
  selectedItem : option NewsItem.t;
  selectedSavedProject : option SavedProject.t
}.
End Nav.

Definition initialNav : Nav.t :=
  {| Nav.view := DISCOVER; Nav.selectedItem := None; Nav.selectedSavedProject := None |}.

(** The three conditional blocks of the page:
    [view === ViewState.DISCOVER && !selectedItem],
    [view === ViewState.SAVED && !selectedSavedProject],
    [view === ViewState.DETAIL && selectedItem]. *)
Definition showsDiscover (st : Nav.t) : bool :=
  bool_decide (Nav.view st = DISCOVER) && bool_decide (Nav.selectedItem st = None).

Definition showsSaved (st : Nav.t) : bool :=
  bool_decide (Nav.view st = SAVED) && bool_decide (Nav.selectedSavedProject st = None).

Definition showsDetail (st : Nav.t) : bool :=
  bool_decide (Nav.view st = DETAIL) && bool_decide (Nav.selectedItem st ≠ None).

(** The logo and the Discover button. *)
Definition goHome (st : Nav.t) : Nav.t :=
  {| Nav.view := DISCOVER; Nav.selectedItem := None; Nav.selectedSavedProject := None |}.

(** The Saved button. *)
Definition goSaved (st : Nav.t) : Nav.t :=
  {| Nav.view := SAVED; Nav.selectedItem := None; Nav.selectedSavedProject := None |}.

(** The [onClick] of a news card. *)
Definition openNews (item : NewsItem.t) (st : Nav.t) : Nav.t :=
  {| Nav.view := DETAIL; Nav.selectedItem := Some item; Nav.selectedSavedProject := None |}.

(** The [onClick] of a row of the project library. *)
Definition openProject (proj : SavedProject.t) (st : Nav.t) : Nav.t :=
  {| Nav.view := DETAIL;
     Nav.selectedItem := Some (SavedProject.newsItem proj);
     Nav.selectedSavedProject := Some proj |}.

(** The "Go Discover News" link of the empty library: [setView(DISCOVER)]. *)
Definition goDiscover (st : Nav.t) : Nav.t :=
  {| Nav.view := DISCOVER;
     Nav.selectedItem := Nav.selectedItem st;
     Nav.selectedSavedProject := Nav.selectedSavedProject st |}.

(** The [onBack] passed to the detail view. *)
Definition onBack (st : Nav.t) : Nav.t :=
  match Nav.selectedSavedProject st with
  | Some _ =>
      {| Nav.view := SAVED; Nav.selectedItem := None; Nav.selectedSavedProject := None |}
  | None =>
      {| Nav.view := DISCOVER; Nav.selectedItem := None;
         Nav.selectedSavedProject := Nav.selectedSavedProject st |}
  end.

(** What the user can click.  A card or a row is named by its position in the
    list it is rendered from. *)
Inductive Click : Type :=
  | ClickLogo
  | ClickDiscover
  | ClickSaved
  | ClickNewsCard (k : nat)
  | ClickProjectRow (k : nat)
  | ClickGoDiscover
  | ClickBack.

(** One click, with the news list and the library as they are at that moment.
    A handler runs only when its element is rendered: the two buttons and the
    logo always, the cards in the headline list, the rows in a non-empty
    library, the link in an empty one, the back arrow in the detail view. *)
Definition click (news : list NewsItem.t) (savedProjects : list SavedProject.t)
    (c : Click) (st : Nav.t) : Nav.t :=
  match c with
  | ClickLogo | ClickDiscover => goHome st
  | ClickSaved => goSaved st
  | ClickNewsCard k =>
      if showsDiscover st
      then match news !! k with Some item => openNews item st | None => st end
      else st
  | ClickProjectRow k =>
      if showsSaved st
      then match savedProjects !! k with Some proj => openProject proj st | None => st end
      else st
  | ClickGoDiscover =>
      if showsSaved st && bool_decide (savedProjects = [])
      then goDiscover st else st
  | ClickBack => if showsDetail st then onBack st else st
  end.

(** A session of clicks, each with the lists of its moment. *)
Definition clicks (session : list (list NewsItem.t * list SavedProject.t * Click)) : Nav.t :=
  foldl (fun st '(news, savedProjects, c) => click news savedProjects c st) initialNav session.

(** A navigation state in which the selections agree with the view: outside
    the detail view nothing is selected, inside it an item is, and a selected
    project comes with its own news item. *)
Definition coherent (st : Nav.t) : Prop :=
  match Nav.view st with
  | DETAIL =>
      Nav.selectedItem st ≠ None
      ∧ ∀ proj, Nav.selectedSavedProject st = Some proj →
          Nav.selectedItem st = Some (SavedProject.newsItem proj)
  | _ => Nav.selectedItem st = None ∧ Nav.selectedSavedProject st = None
  end.

(** *** The resizable panes ([DetailView.tsx]) *)

(** The arithmetic of JavaScript numbers that the horizontal resize uses. *)
Class Arith (number : Type) := {
  of_Z : Z → number;
  sub : number → number → number;
  div : number → number → number;
  mul : number → number → number;
  ltb : number → number → bool
}.

Module Panes.
(** The layout state and the two drag flags.  The script height and the
    vertical mouse movement are whole pixels; the cursor and selection styles
    that the handlers set on the document are left out. *)
Record t (number : Type) := mk {
  leftWidth : number;
  scriptHeight : Z;
  isDraggingHorz : bool;
  isDraggingVert : bool
}.
Arguments mk {number}.
Arguments leftWidth {number}.
Arguments scriptHeight {number}.
Arguments isDraggingHorz {number}.
Arguments isDraggingVert {number}.

(** What a mouse move carries: [e.clientX], [e.movementY], and the
    container's [left] and [width] when [containerRef.current] is set. *)
Record move (number : Type) := mk_move {
  clientX : number;
  movementY : Z;
  container : option (number * number)
}.
Arguments mk_move {number}.
Arguments clientX {number}.
Arguments movementY {number}.
Arguments container {number}.
End Panes.

Section PanesLogic.
Context {number : Type} `{!Arith number}.

Definition initialPanes : Panes.t number :=
  {| Panes.leftWidth := of_Z 60; Panes.scriptHeight := 600;
     Panes.isDraggingHorz := false; Panes.isDraggingVert := false |}.

Definition startDragHorz (st : Panes.t number) : Panes.t number :=
  {| Panes.leftWidth := Panes.leftWidth st; Panes.scriptHeight := Panes.scriptHeight st;
     Panes.isDraggingHorz := true; Panes.isDraggingVert := Panes.isDraggingVert st |}.

Definition startDragVert (st : Panes.t number) : Panes.t number :=
  {| Panes.leftWidth := Panes.leftWidth st; Panes.scriptHeight := Panes.scriptHeight st;
     Panes.isDraggingHorz := Panes.isDraggingHorz st; Panes.isDraggingVert := true |}.

Definition handleMouseUp (st : Panes.t number) : Panes.t number :=
  {| Panes.leftWidth := Panes.leftWidth st; Panes.scriptHeight := Panes.scriptHeight st;
     Panes.isDraggingHorz := false; Panes.isDraggingVert := false |}.

(** [((e.clientX - containerRect.left) / containerRect.width) * 100] *)
Definition newLeftWidth (e : Panes.move number) (rectLeft rectWidth : number) : number :=
  mul (div (sub (Panes.clientX e) rectLeft) rectWidth) (of_Z 100).

Definition handleMouseMove (e : Panes.move number) (st : Panes.t number) : Panes.t number :=
  let leftWidth :=
    if Panes.isDraggingHorz st then
      match Panes.container e with
      | Some (rectLeft, rectWidth) =>
          let w := newLeftWidth e rectLeft rectWidth in
          if ltb (of_Z 20) w && ltb w (of_Z 80) then w else Panes.leftWidth st
      | None => Panes.leftWidth st
      end
    else Panes.leftWidth st in
  let scriptHeight :=
    if Panes.isDraggingVert st
    then Z.max 200 (Z.min (Panes.scriptHeight st + Panes.movementY e) 1000)
    else Panes.scriptHeight st in
  {| Panes.leftWidth := leftWidth; Panes.scriptHeight := scriptHeight;
     Panes.isDraggingHorz := Panes.isDraggingHorz st;
     Panes.isDraggingVert := Panes.isDraggingVert st |}.

Inductive MouseEvent : Type :=
  | MouseDownHorz
  | MouseDownVert
  | MouseMove (e : Panes.move number)
  | MouseUp.

Definition mouse (ev : MouseEvent) (st : Panes.t number) : Panes.t number :=
  match ev with
  | MouseDownHorz => startDragHorz st
  | MouseDownVert => startDragVert st
  | MouseMove e => handleMouseMove e st
  | MouseUp => handleMouseUp st
  end.

Definition mouseSession (events : list MouseEvent) : Panes.t number :=
  foldl (fun st ev => mouse ev st) initialPanes events.
End PanesLogic.

(** Exact fractions as an instance of the arithmetic, for the examples. *)
#[global] Instance Q_arith : Arith QArith_base.Q := {|
  of_Z := QArith_base.inject_Z;
  sub := fun a b => Qreduction.Qred (QArith_base.Qminus a b);
  div := fun a b => Qreduction.Qred (QArith_base.Qdiv a b);
  mul := fun a b => Qreduction.Qred (QArith_base.Qmult a b);
  ltb := fun a b => negb (QArith_base.Qle_bool b a)
|}.

(** *** The script renderer ([DetailView.tsx])

    [renderScript] looks inside its text character by character, so the text
    is taken as the list of its UTF-16 code units. *)

(** The line terminators, which [.] does not match in a regular expression. *)
Definition isLineTerminator (c : N) : bool :=
  (c =? 10)%N || (c =? 13)%N || (c =? 8232)%N || (c =? 8233)%N.

(** The white space of the language other than line terminators. *)
Definition isWhiteSpace (c : N) : bool :=
  (c =? 9)%N || (c =? 11)%N || (c =? 12)%N || (c =? 32)%N || (c =? 160)%N
  || (c =? 5760)%N || ((8192 <=? c)%N && (c <=? 8202)%N)
  || (c =? 8239)%N || (c =? 8287)%N || (c =? 12288)%N || (c =? 65279)%N.

(** What [trim] strips from both ends. *)
Definition isTrimmed (c : N) : bool := isWhiteSpace c || isLineTerminator c.

Fixpoint trimStart (s : list N) : list N :=
  match s with
  | c :: rest => if isTrimmed c then trimStart rest else s
  | [] => []
  end.

(** [s.trim()] *)
Definition trim (s : list N) : list N := reverse (trimStart (reverse (trimStart s))).

(** [!s.trim()] *)
Definition blank (s : list N) : bool := bool_decide (trim s = []).

(** [text.split('\n')] *)
Fixpoint splitLines (text : list N) : list (list N) :=
  match text with
  | [] => [[]]
  | c :: rest =>
      if (c =? 10)%N then [] :: splitLines rest
      else match splitLines rest with
           | line :: lines => (c :: line) :: lines
           | [] => [[c]]
           end
  end.

(** What [.*?\]] matches at the start of [s]: the characters up to the first
    closing bracket, none of them a line terminator; with them, the rest of
    [s] after that bracket. *)
Fixpoint closing (s : list N) : option (list N * list N) :=
  match s with
  | [] => None
  | c :: rest =>
      if (c =? 93)%N then Some ([], rest)
      else if isLineTerminator c then None
      else match closing rest with
           | Some (inside, after) => Some (c :: inside, after)
           | None => None
           end
  end.

(** [s.split(/(\[.*?\])/g)]: the pieces of [s] between the matches of the
    expression, each match put between the pieces around it.  A match is
    tried at every position from the left; after a match the search goes on
    behind it.  [fuel] bounds the number of positions visited. *)
Fixpoint splitFrom (fuel : nat) (s : list N) : list (list N) :=
  match fuel with
  | O => [s]
  | S fuel' =>
      match s with
      | [] => [[]]
      | c :: rest =>
          match (if (c =? 91)%N then closing rest else None) with
          | Some (inside, after) => [] :: (c :: inside ++ [93%N]) :: splitFrom fuel' after
          | None =>
              match splitFrom fuel' rest with
              | piece :: pieces => (c :: piece) :: pieces
              | [] => [[c]]
              end
          end
      end
  end.

Definition splitBrackets (line : list N) : list (list N) := splitFrom (length line) line.

Inductive Block : Type :=
  | Visual (text : list N)    (* the block labelled "Visual:" *)
  | Dialog (text : list N).   (* the spoken text *)

(** [part.replace(/[\[\]]/g, '')] *)
Definition removeBrackets (part : list N) : list N :=
  filter (fun c => c ≠ 91%N ∧ c ≠ 93%N) part.

(** [part.startsWith('[') && part.endsWith(']')] *)
Definition isBracketed (part : list N) : bool :=
  match part with
  | c :: _ => (c =? 91)%N && bool_decide (last part = Some 93%N)
  | [] => false
  end.

(** What one part of a line is rendered as; [None] is the [null] of a part
    that holds white space only. *)
Definition renderPart (part : list N) : option Block :=
  if isBracketed part then Some (Visual (removeBrackets part))
  else if negb (blank part) then Some (Dialog part)
  else None.

Definition renderParts (line : list N) : list (option Block) :=
  renderPart <$> splitBrackets line.

Inductive Line : Type :=
  | Spacer                                  (* the empty [div] of a blank line *)
  | Paragraph (blocks : list (option Block)).

Definition renderLine (line : list N) : Line :=
  if blank line then Spacer else Paragraph (renderParts line).

Definition renderScript (text : list N) : list Line :=
  renderLine <$> splitLines text.

(** The code units of a text written in ASCII, for the examples. *)
Definition codeUnits (s : string) : list N :=
  (fun c => N.of_nat (Ascii.nat_of_ascii c)) <$> String.list_ascii_of_string s.

(** ** JSON

    [JSON.stringify] and [JSON.parse] as ECMA-262 defines them (clause 25.5)
    on the values of the data model.

    A string of the model is the UTF-8 text of a JavaScript string (one
    without lone surrogates), so of its characters [JSON.stringify] escapes
    the quotation mark, the backslash and the control characters below
    U+0020, and writes every other byte as it is.  [JSON.parse] reads the
    grammar of ECMA-404: white space between the tokens, the escapes of a
    string literal, numbers with fraction and exponent, and the three literal
    names.

    The records of the data model do not keep the order in which an object
    got its properties, which is the order [JSON.stringify] writes them in.
    [of_project] and the like write the members in the order of the
    interfaces of [types.ts]; for a project and an image this is the order of
    the object literals in [DetailView.tsx] and [geminiService.ts], while a
    news item made by [fetchPoliticalNews] has its [id] last and a parsed
    object has the order of its text.  [field] finds a member wherever it
    stands, and [writes] relates a collection to its texts in every order.
    [JSON.parse] returns an untyped value, which the program casts; the casts
    are [to_project] and the like, defined on the values that have the
    type. *)

Module Json.
#[warnings="-register-all"] Inductive t : Type :=
  | Null
  | Bool (b : bool)
  | Num (n : Z)
  | Str (s : string)
  | Arr (items : list t)
  | Obj (members : list (string * t)).

Definition quote : Ascii.ascii := Ascii.ascii_of_nat 34.
Definition backslash : Ascii.ascii := Ascii.ascii_of_nat 92.

Definition code (c : Ascii.ascii) : N := Ascii.N_of_ascii c.
Definition char (n : N) : Ascii.ascii := Ascii.ascii_of_N n.

(** *** Writing ([JSON.stringify]) *)

(** A hexadecimal digit, in lower case. *)
Definition hex_digit (n : N) : Ascii.ascii :=
  if (n <? 10)%N then char (48 + n) else char (87 + n).

(** [QuoteJSONString] on one character: the quotation mark, the backslash
    and the control characters below U+0020 are escaped, the five of them
    that have a short form with it and the others as [\u00xx]; every other
    character is written as it is. *)
Definition escape_char (c : Ascii.ascii) : string :=
  let n := code c in
  if (n =? 8)%N then String backslash "b"
  else if (n =? 9)%N then String backslash "t"
  else if (n =? 10)%N then String backslash "n"
  else if (n =? 12)%N then String backslash "f"
  else if (n =? 13)%N then String backslash "r"
  else if (n =? 34)%N then String backslash (String quote "")
  else if (n =? 92)%N then String backslash (String backslash "")
  else if (n <? 32)%N then
    String backslash
      (String "u" (String "0" (String "0"
         (String (hex_digit (n / 16)) (String (hex_digit (n mod 16)) "")))))
  else String c "".

Fixpoint escape (s : string) : string :=
  match s with
  | EmptyString => EmptyString
  | String c rest => escape_char c +:+ escape rest
  end.

Definition print_string (s : string) : string :=
  String quote (escape s +:+ String quote EmptyString).

(** The items of an array or the members of an object, separated by commas. *)
Fixpoint commas (l : list string) : string :=
  match l with
  | [] => ""
  | x :: rest =>
      match rest with
      | [] => x
      | _ :: _ => x +:+ "," +:+ commas rest
      end
  end.

(** [JSON.stringify(value)], without indentation. *)
Fixpoint print (j : t) : string :=
  match j with
  | Null => "null"
  | Bool true => "true"
  | Bool false => "false"
  | Num n => pretty n
  | Str s => print_string s
  | Arr items => "[" +:+ commas (map print items) +:+ "]"
  | Obj members =>
      "{" +:+ commas (map (fun kv => print_string (fst kv) +:+ ":" +:+ print (snd kv)) members)
      +:+ "}"
  end.

(** Values without numbers. *)
Fixpoint plain (j : t) : bool :=
  match j with
  | Num _ => false
  | Arr items => forallb plain items
  | Obj members => forallb (fun kv => plain (snd kv)) members
  | _ => true
  end.

(** *** Reading ([JSON.parse]) *)

(** White space between the tokens: space, tab, line feed, carriage return. *)
Definition is_ws (c : Ascii.ascii) : bool :=
  let n := code c in
  (n =? 32)%N || (n =? 9)%N || (n =? 10)%N || (n =? 13)%N.

Fixpoint skip_ws (s : string) : string :=
  match s with
  | EmptyString => s
  | String c rest => if is_ws c then skip_ws rest else s
  end.

(** The character that a one-letter escape stands for. *)
Definition simple_escape (e : Ascii.ascii) : option Ascii.ascii :=
  let n := code e in
  if (n =? 34)%N then Some quote
  else if (n =? 92)%N then Some backslash
  else if (n =? 47)%N then Some "/"%char
  else if (n =? 98)%N then Some (char 8)
  else if (n =? 102)%N then Some (char 12)
  else if (n =? 110)%N then Some (char 10)
  else if (n =? 114)%N then Some (char 13)
  else if (n =? 116)%N then Some (char 9)
  else None.

Definition hex_value (c : Ascii.ascii) : option N :=
  let n := code c in
  if (48 <=? n)%N && (n <=? 57)%N then Some (n - 48)%N
  else if (97 <=? n)%N && (n <=? 102)%N then Some (n - 87)%N
  else if (65 <=? n)%N && (n <=? 70)%N then Some (n - 55)%N
  else None.

(** The code unit of [\uXXXX]. *)
Definition hex4 (a b c d : Ascii.ascii) : option N :=
  match hex_value a, hex_value b, hex_value c, hex_value d with
  | Some a, Some b, Some c, Some d => Some (((a * 16 + b) * 16 + c) * 16 + d)%N
  | _, _, _, _ => None
  end.

(** The bytes of a code point. *)
Definition utf8 (cp : N) : string :=
  if (cp <? 128)%N then String (char cp) ""
  else if (cp <? 2048)%N then
    String (char (192 + cp / 64)) (String (char (128 + cp mod 64)) "")
  else if (cp <? 65536)%N then
    String (char (224 + cp / 4096))
      (String (char (128 + (cp / 64) mod 64)) (String (char (128 + cp mod 64)) ""))
  else
    String (char (240 + cp / 262144))
      (String (char (128 + (cp / 4096) mod 64))
         (String (char (128 + (cp / 64) mod 64)) (String (char (128 + cp mod 64)) ""))).

Definition is_high (u : N) : bool := (55296 <=? u)%N && (u <=? 56319)%N.
Definition is_low (u : N) : bool := (56320 <=? u)%N && (u <=? 57343)%N.

(** The code point of a surrogate pair. *)
Definition pair_point (high low : N) : N :=
  (65536 + (high - 55296) * 1024 + (low - 56320))%N.

(** The low surrogate that [b u l1 l2 l3 l4] is the escape of, if it is
    one. *)
Definition low_of (b u l1 l2 l3 l4 : Ascii.ascii) : option N :=
  if Ascii.eqb b backslash && Ascii.eqb u "u"%char then
    match hex4 l1 l2 l3 l4 with
    | Some low => if is_low low then Some low else None
    | None => None
    end
  else None.

(** Puts [pre] in front of what was read. *)
Definition prepend (pre : string) (r : option (string * string)) : option (string * string) :=
  match r with
  | Some (body, after) => Some (pre +:+ body, after)
  | None => None
  end.

(** Reads a string literal after its opening quote: up to the closing quote,
    with the escapes of the grammar replaced by what they stand for, the two
    escapes of a surrogate pair by the pair's code point; a control character
    written as it is, an unknown escape and a missing closing quote are
    errors. *)
Fixpoint read_string (s : string) : option (string * string) :=
  match s with
  | EmptyString => None
  | String c rest =>
      if Ascii.eqb c quote then Some (EmptyString, rest)
      else if Ascii.eqb c backslash then
        match rest with
        | EmptyString => None
        | String e rest1 =>
            match simple_escape e with
            | Some d => prepend (String d "") (read_string rest1)
            | None =>
                if Ascii.eqb e "u"%char then
                  match rest1 with
                  | String h1 (String h2 (String h3 (String h4 rest2))) =>
                      match hex4 h1 h2 h3 h4 with
                      | Some unit =>
                          if is_high unit then
                            match rest2 with
                            | String b (String u (String l1 (String l2 (String l3 (String l4 rest3))))) =>
                                match low_of b u l1 l2 l3 l4 with
                                | Some low => prepend (utf8 (pair_point unit low)) (read_string rest3)
                                | None => prepend (utf8 unit) (read_string rest2)
                                end
                            | _ => prepend (utf8 unit) (read_string rest2)
                            end
                          else prepend (utf8 unit) (read_string rest2)
                      | None => None
                      end
                  | _ => None
                  end
                else None
            end
        end
      else if (code c <? 32)%N then None
      else prepend (String c "") (read_string rest)
  end.

Definition digit (c : Ascii.ascii) : option Z :=
  let n := Z.of_nat (Ascii.nat_of_ascii c) in
  if bool_decide (48 ≤ n ≤ 57)%Z then Some (n - 48)%Z else None.

Fixpoint read_digits (acc : Z) (s : string) : Z * string :=
  match s with
  | EmptyString => (acc, s)
  | String c rest =>
      match digit c with
      | Some d => read_digits (10 * acc + d) rest
      | None => (acc, s)
      end
  end.

(** The digits after the decimal point, counted. *)
Fixpoint read_fraction (acc count : Z) (s : string) : Z * Z * string :=
  match s with
  | EmptyString => (acc, count, s)
  | String c rest =>
      match digit c with
      | Some d => read_fraction (10 * acc + d) (count + 1) rest
      | None => (acc, count, s)
      end
  end.

(** The rest of [s] after the character [c], when [s] starts with it. *)
Definition starts_with (c : Ascii.ascii) (s : string) : option string :=
  match s with
  | String d rest => if Ascii.eqb d c then Some rest else None
  | EmptyString => None
  end.

(** The rest of [s] after the word [word], when [s] starts with it. *)
Fixpoint after_prefix (word s : string) : option string :=
  match word with
  | EmptyString => Some s
  | String c word' =>
      match s with
      | String d rest => if Ascii.eqb c d then after_prefix word' rest else None
      | EmptyString => None
      end
  end.

(** The part [.digits] of a number, if any, read onto the digits before it:
    the digits so far, the number of those after the point, and the rest. *)
Definition read_point (whole : Z) (s : string) : option (Z * Z * string) :=
  match starts_with "."%char s with
  | Some (String f rest) =>
      match digit f with
      | Some d => Some (read_fraction (10 * whole + d) 1 rest)
      | None => None
      end
  | Some EmptyString => None
  | None => Some (whole, 0%Z, s)
  end.

(** The part [e±digits] of a number, if any. *)
Definition read_exponent (s : string) : option (Z * string) :=
  match s with
  | String e rest =>
      if Ascii.eqb e "e"%char || Ascii.eqb e "E"%char then
        let '(negative, digits) :=
          match rest with
          | String sign rest' =>
              if Ascii.eqb sign "-"%char then (true, rest')
              else if Ascii.eqb sign "+"%char then (false, rest')
              else (false, rest)
          | EmptyString => (false, rest)
          end in
        match digits with
        | String x rest' =>
            match digit x with
            | Some d =>
                let '(n, after) := read_digits d rest' in
                Some (if negative then (- n)%Z else n, after)
            | None => None
            end
        | EmptyString => None
        end
      else Some (0%Z, s)
  | EmptyString => Some (0%Z, s)
  end.

(** A number of the grammar: an optional minus, digits without a leading
    zero, an optional fraction, an optional exponent.  The data model has no
    numbers and the program reads none; of a number its whole part is kept. *)
Definition read_number (s : string) : option (Z * string) :=
  let '(negative, s1) :=
    match starts_with "-"%char s with
    | Some rest => (true, rest)
    | None => (false, s)
    end in
  match s1 with
  | EmptyString => None
  | String c rest =>
      match digit c with
      | None => None
      | Some d =>
          let '(whole, s2) := if (d =? 0)%Z then (0%Z, rest) else read_digits d rest in
          match read_point whole s2 with
          | None => None
          | Some (digits, count, s3) =>
              match read_exponent s3 with
              | None => None
              | Some (exponent, s4) =>
                  let scale := (exponent - count)%Z in
                  let magnitude :=
                    if (0 <=? scale)%Z then (digits * 10 ^ scale)%Z
                    else Z.quot digits (10 ^ (- scale)) in
                  Some (if negative then (- magnitude)%Z else magnitude, s4)
              end
          end
      end
  end.

Inductive mode : Type :=
  | Value
  | Elems (acc : list t)
  | Members (acc : list (string * t)).

(** One value of the grammar and the text after it; white space is allowed
    before every token. *)
Fixpoint parse (fuel : nat) (m : mode) (s : string) : option (t * string) :=
  match fuel with
  | O => None
  | S fuel =>
      match m with
      | Value =>
          match skip_ws s with
          | EmptyString => None
          | String c rest =>
              if Ascii.eqb c quote then
                match read_string rest with
                | Some (body, after) => Some (Str body, after)
                | None => None
                end
              else if Ascii.eqb c "["%char then
                match starts_with "]"%char (skip_ws rest) with
                | Some after => Some (Arr [], after)
                | None => parse fuel (Elems []) rest
                end
              else if Ascii.eqb c "{"%char then
                match starts_with "}"%char (skip_ws rest) with
                | Some after => Some (Obj [], after)
                | None => parse fuel (Members []) rest
                end
              else
                match after_prefix "null" (String c rest) with
                | Some after => Some (Null, after)
                | None =>
                    match after_prefix "true" (String c rest) with
                    | Some after => Some (Bool true, after)
                    | None =>
                        match after_prefix "false" (String c rest) with
                        | Some after => Some (Bool false, after)
                        | None =>
                            match read_number (String c rest) with
                            | Some (n, after) => Some (Num n, after)
                            | None => None
                            end
                        end
                    end
                end
          end
      | Elems acc =>
          match parse fuel Value s with
          | Some (v, after) =>
              match starts_with ","%char (skip_ws after) with
              | Some after' => parse fuel (Elems (v :: acc)) after'
              | None =>
                  match starts_with "]"%char (skip_ws after) with
                  | Some after' => Some (Arr (rev (v :: acc)), after')
                  | None => None
                  end
              end
          | None => None
          end
      | Members acc =>
          match starts_with quote (skip_ws s) with
          | Some rest =>
              match read_string rest with
              | Some (k, after) =>
                  match starts_with ":"%char (skip_ws after) with
                  | Some after' =>
                      match parse fuel Value after' with
                      | Some (v, after'') =>
                          match starts_with ","%char (skip_ws after'') with
                          | Some next => parse fuel (Members ((k, v) :: acc)) next
                          | None =>
                              match starts_with "}"%char (skip_ws after'') with
                              | Some next => Some (Obj (rev ((k, v) :: acc)), next)
                              | None => None
                              end
                          end
                      | None => None
                      end
                  | None => None
                  end
              | None => None
              end
          | None => None
          end
      end
  end.

(** One member of an object, as printed. *)
Definition print_member (kv : string * t) : string :=
  print_string (fst kv) +:+ ":" +:+ print (snd kv).

(** The value [j] is read back from its text, whatever follows the text and
    with any fuel that covers the text's length. *)
Definition reads_back (j : t) : Prop :=
  ∀ fuel rest, String.length (print j) ≤ fuel →
    parse fuel Value (print j +:+ rest) = Some (j, rest).

(** A whole text: one value, and nothing but white space after it. *)
Definition parse_text (text : string) : option t :=
  match parse (S (String.length text)) Value text with
  | Some (j, after) =>
      match skip_ws after with
      | EmptyString => Some j
      | String _ _ => None
      end
  | None => None
  end.

(** *** The data model as JSON values *)

(** The property [k] of an object; of a key written more than once the last
    value counts. *)
Definition field (k : string) (j : t) : option t :=
  match j with
  | Obj members => snd <$> find (fun kv => String.eqb (fst kv) k) (rev members)
  | _ => None
  end.

Definition as_string (j : t) : option string :=
  match j with Str s => Some s | _ => None end.

Definition as_list {A} (f : t → option A) (j : t) : option (list A) :=
  match j with Arr items => mapM f items | _ => None end.

Definition str_field (k : string) (j : t) : option string := field k j ≫= as_string.

(** A field that may be absent. *)
Definition opt_field (k : string) (j : t) : option (option string) :=
  match field k j with
  | Some v => Some <$> as_string v
  | None => Some None
  end.

Definition strings (l : list string) : t := Arr (Str <$> l).

Definition optional (k : string) (o : option string) : list (string * t) :=
  match o with Some s => [(k, Str s)] | None => [] end.

Definition of_news (n : NewsItem.t) : t :=
  Obj ([("id", Str (NewsItem.id n)); ("title", Str (NewsItem.title n));
        ("snippet", Str (NewsItem.snippet n))]
       ++ optional "source" (NewsItem.source n)
       ++ optional "url" (NewsItem.url n)
       ++ optional "publishedDate" (NewsItem.publishedDate n)).

Definition to_news (j : t) : option NewsItem.t :=
  title ← str_field "title" j;
  snippet ← str_field "snippet" j;
  source ← opt_field "source" j;
  url ← opt_field "url" j;
  publishedDate ← opt_field "publishedDate" j;
  Some {| NewsItem.id := default "" (str_field "id" j);
          NewsItem.title := title; NewsItem.snippet := snippet;
          NewsItem.source := source; NewsItem.url := url;
          NewsItem.publishedDate := publishedDate |}.

Definition of_content (c : GeneratedContent.t) : t :=
  Obj [("summaryEnglish", Str (GeneratedContent.summaryEnglish c));
       ("summaryBurmese", Str (GeneratedContent.summaryBurmese c));
       ("scriptBurmese", Str (GeneratedContent.scriptBurmese c));
       ("facebookPostBurmese", Str (GeneratedContent.facebookPostBurmese c));
       ("burmeseTitles", strings (GeneratedContent.burmeseTitles c));
       ("visualPrompts", strings (GeneratedContent.visualPrompts c));
       ("imageQueries", strings (GeneratedContent.imageQueries c))].

Definition to_content (j : t) : option GeneratedContent.t :=
  summaryEnglish ← str_field "summaryEnglish" j;
  summaryBurmese ← str_field "summaryBurmese" j;
  scriptBurmese ← str_field "scriptBurmese" j;
  facebookPostBurmese ← str_field "facebookPostBurmese" j;
  burmeseTitles ← field "burmeseTitles" j ≫= as_list as_string;
  visualPrompts ← field "visualPrompts" j ≫= as_list as_string;
  imageQueries ← field "imageQueries" j ≫= as_list as_string;
  Some (GeneratedContent.mk summaryEnglish summaryBurmese scriptBurmese
          facebookPostBurmese burmeseTitles visualPrompts imageQueries).

Definition of_image (g : GroundingImage.t) : t :=
  Obj [("url", Str (GroundingImage.url g)); ("title", Str (GroundingImage.title g));
       ("source", Str (GroundingImage.source g))].

Definition to_image (j : t) : option GroundingImage.t :=
  url ← str_field "url" j;
  title ← str_field "title" j;
  source ← str_field "source" j;
  Some (GroundingImage.mk url title source).

Definition of_project (p : SavedProject.t) : t :=
  Obj [("id", Str (SavedProject.id p));
       ("newsItem", of_news (SavedProject.newsItem p));
       ("generatedContent",
         match SavedProject.generatedContent p with Some c => of_content c | None => Null end);
       ("savedAt", Str (SavedProject.savedAt p));
       ("groundingImages", Arr (of_image <$> SavedProject.groundingImages p))].

Definition to_project (j : t) : option SavedProject.t :=
  id ← str_field "id" j;
  newsItem ← field "newsItem" j ≫= to_news;
  generatedContent ←
    match field "generatedContent" j with
    | Some Null => Some None
    | Some c => Some <$> to_content c
    | None => None
    end;
  savedAt ← str_field "savedAt" j;
  groundingImages ← field "groundingImages" j ≫= as_list to_image;
  Some (SavedProject.mk id newsItem generatedContent savedAt groundingImages).

(** [JSON.stringify(savedProjects)] *)
Definition stringify_projects (ps : list SavedProject.t) : string :=
  print (Arr (of_project <$> ps)).

(** The text [text] writes the collection [ps]: it is the text of a value
    without numbers that has the type [SavedProject[]] and, cast to it, is
    [ps].  The members of its objects stand in any order. *)
Definition writes (ps : list SavedProject.t) (text : string) : Prop :=
  ∃ j, plain j = true ∧ as_list to_project j = Some ps ∧ text = print j.

Definition SyntaxError : JsError.t := Error "Unexpected token in JSON".

Definition of_option {A} (o : option A) : Outcome A :=
  match o with Some v => Resolved v | None => Rejected SyntaxError end.

(** [JSON.parse(text)], as far as [JsonValue] holds its result: of an object
    the keys of its members, as the text has them.  An array that does not
    hold projects is outside [JsonValue] and is refused. *)
Definition parse_value (text : string) : Outcome JsonValue :=
  match parse_text text with
  | Some (Arr items) => of_option (JsonArray <$> mapM to_project items)
  | Some (Obj members) => Resolved (JsonObject (fst <$> members))
  | Some (Str s) => Resolved (JsonString s)
  | Some (Num n) => Resolved (JsonNumber n)
  | Some (Bool b) => Resolved (JsonBool b)
  | Some Null => Resolved JsonNull
  | None => Rejected SyntaxError
  end.

Definition parse_content (text : string) : Outcome GeneratedContent.t :=
  of_option (parse_text text ≫= to_content).

Definition parse_news (text : string) : Outcome (list NewsItem.t) :=
  of_option (parse_text text ≫= as_list to_news).
End Json.

(** ** A concrete runtime

    A scripted world on which the definitions above can be evaluated: the
    provider answers each call with the next outcome of a script, the clock
    advances with every reading and every wait, and JSON text is written and
    read as in [Json]. *)

Module Scripted.
Record World := mk {
  script : list (Outcome Response.t);   (* the provider's answers, in order *)
  clock : Z;                            (* milliseconds *)
  requests : list Request.t;            (* calls made, latest first *)
  timers : list Z                       (* waits made, latest first *)
}.

Definition call (request : Request.t) (w : World) : Outcome Response.t * World :=
  match script w with
  | answer :: rest =>
      (answer, {| script := rest; clock := clock w + 1;
                  requests := request :: requests w; timers := timers w |})
  | [] =>
      (Rejected (Error "fetch failed"),
       {| script := []; clock := clock w + 1;
          requests := request :: requests w; timers := timers w |})
  end.

Definition wait (delay : Z) (w : World) : World :=
  {| script := script w; clock := clock w + delay;
     requests := requests w; timers := delay :: timers w |}.

Definition now (w : World) : Z * World :=
  (clock w, {| script := script w; clock := clock w + 1;
               requests := requests w; timers := timers w |}).

#[global] Instance runtime : Runtime World := {|
  generateContent := call;
  setTimeout := wait;
  jitter := fun w => (clock w `mod` 1000, w)%Z;
  Date_now := now;
  toISOString := fun ms => pretty ms;
  JSON_parse_content := Json.parse_content;
  JSON_parse_news := Json.parse_news;
  JSON_stringify := Json.stringify_projects;
  JSON_parse := Json.parse_value
|}.

Definition start (answers : list (Outcome Response.t)) : World :=
  {| script := answers; clock := 1700000000000; requests := []; timers := [] |}.

(** A text with every apostrophe replaced by a quotation mark, to write
    JSON text in the examples. *)
Fixpoint quoted (s : string) : string :=
  match s with
  | EmptyString => EmptyString
  | String c rest =>
      String (if Ascii.eqb c "'"%char then Json.quote else c) (quoted rest)
  end.

Definition newline : string := String (Json.char 10) "".
Definition tab : string := String (Json.char 9) "".

(** Sample outcomes. *)
Definition tooManyRequests : JsError.t := JsError.mk (Some "Too Many Requests") (Some 429%Z) None.
Definition serverError : JsError.t := JsError.mk (Some "Internal error") (Some 500%Z) None.

Definition textResponse (text : string) : Response.t :=
  {| Response.text := Some text; Response.candidates := None |}.

Definition chunk (uri title : string) : GroundingChunk.t :=
  {| GroundingChunk.web := Some {| WebChunk.uri := Some uri; WebChunk.title := Some title |} |}.

Definition groundedResponse (chunks : list GroundingChunk.t) : Response.t :=
  {| Response.text := None;
     Response.candidates := Some [ {| Candidate.groundingChunks := Some chunks |} ] |}.

Definition headline (id title : string) : NewsItem.t :=
  NewsItem.mk id title "snippet" (Some "agency") None None.

Definition kit (queries : list string) : GeneratedContent.t :=
  GeneratedContent.mk "summary" "summary-my" "[Show map] script" "post"
    ["t1"; "t2"; "t3"] ["p1"] queries.

(** The text of a news response holding the given items. *)
Definition newsText (items : list NewsItem.t) : string :=
  Json.print (Json.Arr (Json.of_news <$> items)).

Definition emptyApp : App.t :=
  {| App.news := []; App.loadingNews := false; App.errorMsg := None; App.savedProjects := [] |}.

(** Thirteen grounding chunks: eleven distinct urls that qualify, the first
    of them returned twice under different titles, and one link that is
    neither an image nor titled. *)
Definition manyChunks : list GroundingChunk.t :=
  [chunk "https://img.example/01.jpg" "one";
   chunk "https://img.example/02.png" "two";
   chunk "https://img.example/01.jpg" "one again";
   chunk "https://img.example/page" "";
   chunk "https://img.example/03.webp" "";
   chunk "https://img.example/04" "four";
   chunk "https://img.example/05.gif" "five";
   chunk "https://img.example/06.jpeg" "six";
   chunk "https://img.example/07.jpg" "seven";
   chunk "https://img.example/08.jpg" "eight";
   chunk "https://img.example/09.jpg" "nine";
   chunk "https://img.example/10.jpg" "ten";
   chunk "https://img.example/11.jpg" "eleven"].

(** One call to the provider, the operation wrapped in the examples. *)
Definition ping : Async World Response.t :=
  call (Request.mk "gemini-3-flash-preview" "ping" false false).

(** The text of a content-kit response. *)
Definition kitText (content : GeneratedContent.t) : string :=
  Json.print (Json.of_content content).

Definition project (id : string) (n : NewsItem.t) : SavedProject.t :=
  SavedProject.mk id n (Some (kit ["q1"])) "2024-01-01T00:00:00.000Z"
    [GroundingImage.mk "https://x.example/a.png" "A" "A"].
End Scripted.

(** * Properties *)

(** ** The retry wrapper *)

Section RetryFacts.
Context {W : Type} `{!Runtime W} {T : Type}.
Variable operation : Async W T.
Variable baseDelay : Z.

(** With no iteration left the loop is left and the generic error is thrown. *)
Lemma retryLoop_done retries i w :
  retryLoop operation retries baseDelay 0 i w = (Rejected Max_retries_exceeded, w).
Proof. reflexivity. Qed.

(** An attempt that resolves ends the loop with its value. *)
Lemma retryLoop_resolved retries remaining i w v w' :
  operation w = (Resolved v, w') →
  retryLoop operation retries baseDelay (S remaining) i w = (Resolved v, w').
Proof. intros Hop. simpl. by rewrite Hop. Qed.

(** An attempt that rejects with an error that is not retried ends the loop
    with that error. *)
Lemma retryLoop_rejected retries remaining i w e w' :
  operation w = (Rejected e, w') →
  isRateLimit e && bool_decide (Z.of_nat i < Z.of_nat retries - 1)%Z = false →
  retryLoop operation retries baseDelay (S remaining) i w = (Rejected e, w').
Proof. intros Hop Hno. simpl. by rewrite Hop, Hno. Qed.

(** A rate-limited attempt that is not the last one is followed by a wait and
    the next iteration. *)
Lemma retryLoop_retry retries remaining i w e w' :
  operation w = (Rejected e, w') →
  isRateLimit e = true →
  (S i < retries)%nat →
  retryLoop operation retries baseDelay (S remaining) i w
  = retryLoop operation retries baseDelay remaining (S i) (backoff baseDelay i w').
Proof.
  intros Hop Hrl Hlt. simpl. rewrite Hop, Hrl. simpl.
  rewrite bool_decide_eq_true_2; [done | lia].
Qed.

(** [k] rate-limited attempts in a row, none of them the last, take the loop
    [k] iterations further. *)
Lemma retryLoop_rate_limited retries k :
  ∀ i remaining w w',
    RateLimited operation baseDelay i k w w' →
    (i + k < retries)%nat →
    retryLoop operation retries baseDelay (k + remaining) i w
    = retryLoop operation retries baseDelay remaining (i + k) w'.
Proof.
  induction k as [|k IH]; intros i remaining w w' Hrun Hlt.
  - inversion Hrun; subst. by rewrite Nat.add_0_r.
  - inversion Hrun as [|? ? ? e w1 ? Hop Hrl Hrest]; subst.
    change (S k + remaining)%nat with (S (k + remaining)).
    rewrite (retryLoop_retry _ _ _ _ e w1) by (done || lia).
    rewrite (IH (S i) remaining _ w') by (done || lia).
    f_equal. lia.
Qed.

(** C2. If the first [k] attempts are rejected with rate-limit errors and
    attempt [k], still within the retry count, resolves, the wrapper resolves
    with that value; if attempt [k] is rejected with an error that is not a
    rate-limit error, the wrapper rejects with that very error in the world
    the failed attempt left: no wait and no further attempt follows. *)
Theorem retryOperation_rate_limit_then_settled retries k w wk :
  RateLimited operation baseDelay 0 k w wk →
  (k < retries)%nat →
  (∀ v w', operation wk = (Resolved v, w') →
     retryOperation_with operation retries baseDelay w = (Resolved v, w'))
  ∧ (∀ e w', operation wk = (Rejected e, w') → isRateLimit e = false →
     retryOperation_with operation retries baseDelay w = (Rejected e, w')).
Proof.
  intros Hrun Hlt. unfold retryOperation_with.
  assert (Hskip : ∀ m, retries = (k + S m)%nat →
            retryLoop operation retries baseDelay retries 0 w
            = retryLoop operation retries baseDelay (S m) k wk).
  { intros m Hm. rewrite Hm at 2.
    rewrite (retryLoop_rate_limited retries k 0 (S m) w wk) by (done || lia).
    done. }
  destruct (Nat.le_exists_sub (S k) retries) as [m [Hm _]]; [lia|].
  rewrite (Hskip m) by lia.
  split.
  - intros v w' Hop. by apply retryLoop_resolved.
  - intros e w' Hop Hno. apply retryLoop_rejected; [done|]. by rewrite Hno.
Qed.

(** C3, as the code has it. With a retry count of zero the operation is never
    called and the wrapper rejects with the generic error.  With a retry count
    of [n + 1], when the first [n] attempts are rejected with rate-limit
    errors and the last attempt is rejected with a rate-limit error too, the
    wrapper rejects with the last attempt's own error. *)
Theorem retryOperation_exhausted w :
  retryOperation_with operation 0 baseDelay w = (Rejected Max_retries_exceeded, w)
  ∧ (∀ n wl e w',
       RateLimited operation baseDelay 0 n w wl →
       operation wl = (Rejected e, w') →
       isRateLimit e = true →
       retryOperation_with operation (S n) baseDelay w = (Rejected e, w')).
Proof.
  split; [reflexivity|].
  intros n wl e w' Hrun Hop Hrl. unfold retryOperation_with.
  replace (S n) with (n + 1)%nat at 2 by lia.
  rewrite (retryLoop_rate_limited (S n) n 0 1 w wl) by (done || lia).
  apply retryLoop_rejected; [done|].
  rewrite Hrl. simpl. apply bool_decide_eq_false_2. lia.
Qed.
End RetryFacts.

(** A rate-limited first attempt followed by a success: two calls, one wait,
    and the second call's response is returned. *)
Lemma retryOperation_rate_limit_then_settled_witness :
  let answer := Scripted.textResponse "ok" in
  let w := Scripted.start [Rejected Scripted.tooManyRequests; Resolved answer] in
  let wk := backoff 2000 0 (snd (Scripted.ping w)) in
  RateLimited Scripted.ping 2000 0 1 w wk
  ∧ (1 < 3)%nat
  ∧ Scripted.ping wk = (Resolved answer, snd (Scripted.ping wk))
  ∧ retryOperation Scripted.ping w = (Resolved answer, snd (Scripted.ping wk))
  ∧ length (Scripted.requests (snd (retryOperation Scripted.ping w))) = 2%nat.
Proof.
  intros answer w wk.
  assert (Hrun : RateLimited Scripted.ping 2000 0 1 w wk).
  { eapply RateLimited_cons; [reflexivity | reflexivity | apply RateLimited_nil]. }
  split; [exact Hrun|]. split; [lia|]. split; [reflexivity|].
  split.
  - exact (proj1 (retryOperation_rate_limit_then_settled Scripted.ping 2000 3 1 w wk Hrun
                    ltac:(lia)) answer (snd (Scripted.ping wk)) eq_refl).
  - vm_compute. reflexivity.
Defined.

(** An operation that always answers 429 makes the wrapper fail with that
    answer, not with the generic error. *)
Lemma retryOperation_exhausted_not_generic :
  ¬ (∀ (operation : Async Scripted.World Response.t) (w : Scripted.World),
       (∀ w0, ∃ e w1, operation w0 = (Rejected e, w1) ∧ isRateLimit e = true) →
       fst (retryOperation operation w) = Rejected Max_retries_exceeded).
Proof.
  intros Hclaim.
  specialize (Hclaim (throw Scripted.tooManyRequests) (Scripted.start [])).
  assert (Hall : ∀ w0 : Scripted.World, ∃ e w1,
            throw (A:=Response.t) Scripted.tooManyRequests w0 = (Rejected e, w1)
            ∧ isRateLimit e = true).
  { intros w0. exists Scripted.tooManyRequests, w0. split; reflexivity. }
  specialize (Hclaim Hall). vm_compute in Hclaim. discriminate Hclaim.
Qed.

(** Three rate-limited attempts with the default retry count of three. *)
Lemma retryOperation_exhausted_witness :
  let e := Scripted.tooManyRequests in
  let w := Scripted.start [Rejected e; Rejected e; Rejected e] in
  let w1 := backoff 2000 0 (snd (Scripted.ping w)) in
  let w2 := backoff 2000 1 (snd (Scripted.ping w1)) in
  RateLimited Scripted.ping 2000 0 2 w w2
  ∧ Scripted.ping w2 = (Rejected e, snd (Scripted.ping w2))
  ∧ isRateLimit e = true
  ∧ retryOperation Scripted.ping w = (Rejected e, snd (Scripted.ping w2)).
Proof.
  intros e w w1 w2.
  assert (Hrun : RateLimited Scripted.ping 2000 0 2 w w2).
  { eapply RateLimited_cons; [reflexivity | reflexivity |].
    eapply RateLimited_cons; [reflexivity | reflexivity | apply RateLimited_nil]. }
  split; [exact Hrun|]. split; [reflexivity|]. split; [reflexivity|].
  exact (proj2 (retryOperation_exhausted Scripted.ping 2000 w) 2%nat w2 e
           (snd (Scripted.ping w2)) Hrun eq_refl eq_refl).
Defined.

(** ** The news list *)

Section NewsFacts.
Implicit Types items prev : list NewsItem.t.

(** The set of existing titles holds exactly the titles of the list. *)
Lemma mergeNews_filter items prev :
  mergeNews items prev
  = filter (fun item => NewsItem.title item ∉ NewsItem.title <$> prev) items ++ prev.
Proof.
  unfold mergeNews. f_equal. apply list_filter_iff. intros item.
  by rewrite elem_of_list_to_set.
Qed.

(** C4, as the code has it. Merging a batch puts exactly the batch's entries
    whose titles are not in the current list, in batch order, in front of the
    current list, which follows unchanged and in its order. *)
Theorem mergeNews_prepends_unseen items prev :
  mergeNews items prev
  = filter (fun item => NewsItem.title item ∉ NewsItem.title <$> prev) items ++ prev
  ∧ drop (length (mergeNews items prev) - length prev) (mergeNews items prev) = prev
  ∧ (∀ item, item ∈ mergeNews items prev ↔
       item ∈ prev ∨ (item ∈ items ∧ NewsItem.title item ∉ NewsItem.title <$> prev)).
Proof.
  rewrite mergeNews_filter. split; [done|]. split.
  - rewrite length_app, Nat.add_sub. by rewrite drop_app_length.
  - intros item. rewrite elem_of_app, list_elem_of_filter. tauto.
Qed.

(** The new entries are not appended: a fresh headline lands before the one
    already listed. *)
Lemma mergeNews_not_appended :
  ¬ (∀ items prev,
       mergeNews items prev
       = prev ++ filter (fun item => NewsItem.title item ∉ NewsItem.title <$> prev) items).
Proof.
  intros Hclaim.
  specialize (Hclaim [Scripted.headline "news-2-0" "B"] [Scripted.headline "news-1-0" "A"]).
  vm_compute in Hclaim. discriminate Hclaim.
Qed.

(** A batch without repeated titles keeps the titles of the list distinct. *)
Lemma mergeNews_NoDup items prev :
  NoDup (NewsItem.title <$> items) →
  NoDup (NewsItem.title <$> prev) →
  NoDup (NewsItem.title <$> mergeNews items prev).
Proof.
  intros Hitems Hprev. rewrite mergeNews_filter, fmap_app.
  apply NoDup_app. split; [|split; [|done]].
  - induction items as [|item items IH]; [constructor|].
    rewrite fmap_cons in Hitems. apply NoDup_cons in Hitems as [Hnotin Hnodup].
    rewrite filter_cons. case_decide.
    + rewrite fmap_cons. apply NoDup_cons. split; [|by apply IH].
      intros Hin. apply Hnotin.
      apply list_elem_of_fmap in Hin as (y & Hy & Hyin).
      apply list_elem_of_filter in Hyin as [_ Hyin].
      rewrite Hy. by apply list_elem_of_fmap_2.
    + by apply IH.
  - intros t Hin. apply list_elem_of_fmap in Hin as (y & -> & Hyin).
    by apply list_elem_of_filter in Hyin as [Hfresh _].
Qed.

(** In a session whose batches never repeat a title inside one batch, the news
    list never holds two items with equal titles. *)
Lemma newsAfter_NoDup (batches : list (list NewsItem.t)) :
  Forall (fun items => NoDup (NewsItem.title <$> items)) batches →
  NoDup (NewsItem.title <$> newsAfter batches).
Proof.
  unfold newsAfter.
  assert (Hgen : ∀ news, NoDup (NewsItem.title <$> news) →
            Forall (fun items => NoDup (NewsItem.title <$> items)) batches →
            NoDup (NewsItem.title <$>
                     foldl (fun news items => mergeNews items news) news batches)).
  { induction batches as [|items batches IH]; intros news Hnews Hall; [done|].
    apply Forall_cons in Hall as [Hitems Hall]. simpl.
    apply IH; [|done]. by apply mergeNews_NoDup. }
  apply Hgen. constructor.
Qed.

(** C5 at its failing input. The provider answers the first fetch of a session
    with two headlines of the same title; both are listed. *)
Theorem handleFetchNews_repeated_title :
  let batch := [Scripted.headline "" "Summit ends"; Scripted.headline "" "Summit ends"] in
  let w := Scripted.start [Resolved (Scripted.textResponse (Scripted.newsText batch))] in
  let news := App.news (fst (handleFetchNews (Some "key") Scripted.emptyApp w)) in
  NewsItem.title <$> news = ["Summit ends"; "Summit ends"]
  ∧ ¬ NoDup (NewsItem.title <$> news)
  ∧ ¬ NoDup (NewsItem.title <$> newsAfter [batch]).
Proof.
  intros batch w news.
  assert (Htitles : NewsItem.title <$> news = ["Summit ends"; "Summit ends"])
    by (vm_compute; reflexivity).
  split; [exact Htitles|]. split.
  - rewrite Htitles. intros Hnodup. apply NoDup_cons in Hnodup as [Hnotin _].
    apply Hnotin. constructor.
  - intros Hnodup. vm_compute in Hnodup. apply NoDup_cons in Hnodup as [Hnotin _].
    apply Hnotin. constructor.
Qed.
End NewsFacts.

(** ** Arrays *)

Section ArrayFacts.
Context {A : Type}.
Implicit Types (p : A → bool) (a : list A).

(** [findIndex] returns -1 exactly when no element satisfies the test, and
    otherwise the position of the first element that does. *)
Lemma findIndex_from_spec p a i :
  (findIndex_from p a i = (-1)%Z ∧ Forall (fun x => p x = false) a)
  ∨ (∃ k x, findIndex_from p a i = (i + Z.of_nat k)%Z
        ∧ a !! k = Some x ∧ p x = true
        ∧ Forall (fun y => p y = false) (take k a)).
Proof.
  revert i. induction a as [|x a IH]; intros i; simpl.
  - left. by split.
  - destruct (p x) eqn:Hpx.
    + right. exists 0%nat, x. repeat split; [lia | done | constructor].
    + destruct (IH (i + 1)%Z) as [[Hnone Hall] | (k & y & Hidx & Hlook & Hpy & Hbefore)].
      * left. split; [done|]. by constructor.
      * right. exists (S k), y. repeat split; [lia | done | done |].
        simpl. by constructor.
Qed.

Lemma findIndex_spec p a :
  (findIndex p a = (-1)%Z ∧ Forall (fun x => p x = false) a)
  ∨ (∃ k x, findIndex p a = Z.of_nat k
        ∧ a !! k = Some x ∧ p x = true
        ∧ Forall (fun y => p y = false) (take k a)).
Proof.
  unfold findIndex.
  destruct (findIndex_from_spec p a 0) as [H | (k & x & Hidx & H)]; [by left|].
  right. exists k, x. split; [lia | done].
Qed.

(** The index found in [pre ++ x :: rest] is the position of [x] exactly when
    [x] passes the test and nothing before it does. *)
Lemma findIndex_first p (pre : list A) x rest :
  findIndex p (pre ++ x :: rest) = Z.of_nat (length pre)
  ↔ p x = true ∧ Forall (fun y => p y = false) pre.
Proof.
  destruct (findIndex_spec p (pre ++ x :: rest))
    as [[Hnone Hall] | (k & y & Hidx & Hlook & Hpy & Hbefore)].
  - rewrite Hnone. split; [lia|]. intros [Hpx _].
    apply Forall_app in Hall as [_ Hall]. apply Forall_cons in Hall as [Hx _]. congruence.
  - rewrite Hidx. split.
    + intros Hk. assert (k = length pre) as -> by lia.
      rewrite list_lookup_middle in Hlook by done. injection Hlook as ->.
      split; [done|]. by rewrite take_app_length in Hbefore.
    + intros [Hpx Hpre]. f_equal.
      destruct (Nat.lt_trichotomy k (length pre)) as [Hlt | [Heq | Hgt]]; [|done|].
      * rewrite lookup_app_l in Hlook by done.
        rewrite Forall_forall in Hpre.
        assert (p y = false) by (apply Hpre; by eapply list_elem_of_lookup_2).
        congruence.
      * exfalso. assert (x ∈ take k (pre ++ x :: rest)).
        { apply elem_of_take. exists (length pre). split; [|done].
          by apply list_lookup_middle. }
        rewrite Forall_forall in Hbefore. assert (p x = false) by by apply Hbefore.
        congruence.
Qed.
End ArrayFacts.

(** ** The saved-project collection *)

Section CollectionFacts.
Context {W : Type} `{!Runtime W}.
Implicit Types (prev json : list SavedProject.t) (project : SavedProject.t).

Lemma some_same_id prev (id : string) :
  some (fun p => String.eqb (SavedProject.id p) id) prev = false
  ↔ id ∉ SavedProject.id <$> prev.
Proof.
  unfold some. rewrite <- not_true_iff_false, existsb_exists. split.
  - intros Hno Hin. apply list_elem_of_fmap in Hin as (p & -> & Hin).
    apply Hno. exists p. split; [by apply list_elem_of_In | by apply String.eqb_eq].
  - intros Hnotin (p & Hin & Heq). apply Hnotin.
    apply String.eqb_eq in Heq as <-. apply list_elem_of_fmap_2. by apply list_elem_of_In.
Qed.

Lemma mergeImported_filter json prev :
  mergeImported json prev
  = filter (fun j => SavedProject.id j ∉ SavedProject.id <$> prev) json ++ prev.
Proof.
  unfold mergeImported. f_equal. apply list_filter_iff. intros j. apply some_same_id.
Qed.

(** Saving a project whose id is not in the collection puts it in front. *)
Lemma handleProjectSave_new project prev :
  SavedProject.id project ∉ SavedProject.id <$> prev →
  handleProjectSave project prev = project :: prev.
Proof.
  intros Hnew. unfold handleProjectSave.
  destruct (findIndex_spec
              (fun p => String.eqb (SavedProject.id p) (SavedProject.id project)) prev)
    as [[Hnone _] | (k & q & _ & Hlook & Heq & _)].
  - rewrite Hnone. by rewrite bool_decide_eq_false_2 by lia.
  - exfalso. apply Hnew. apply String.eqb_eq in Heq as <-.
    apply list_elem_of_fmap_2. by eapply list_elem_of_lookup_2.
Qed.

(** Saving a project whose id is in the collection replaces, in place, the
    first project with that id. *)
Lemma handleProjectSave_existing project prev :
  SavedProject.id project ∈ SavedProject.id <$> prev →
  ∃ k q, prev !! k = Some q ∧ SavedProject.id q = SavedProject.id project
    ∧ handleProjectSave project prev = <[k := project]> prev.
Proof.
  intros Hold. unfold handleProjectSave.
  destruct (findIndex_spec
              (fun p => String.eqb (SavedProject.id p) (SavedProject.id project)) prev)
    as [[_ Hall] | (k & q & Hidx & Hlook & Heq & _)].
  - exfalso. apply list_elem_of_fmap in Hold as (q & Hid & Hin).
    rewrite Forall_forall in Hall. specialize (Hall q Hin).
    apply not_true_iff_false in Hall. apply Hall. by apply String.eqb_eq.
  - exists k, q. rewrite Hidx. rewrite bool_decide_eq_true_2 by lia.
    rewrite Nat2Z.id. split; [done|]. split; [by apply String.eqb_eq | done].
Qed.

Lemma handleProjectSave_ids project prev :
  SavedProject.id <$> handleProjectSave project prev
  = if bool_decide (SavedProject.id project ∈ SavedProject.id <$> prev)
    then SavedProject.id <$> prev
    else SavedProject.id project :: (SavedProject.id <$> prev).
Proof.
  case_bool_decide as Hin.
  - destruct (handleProjectSave_existing project prev Hin) as (k & q & Hlook & Hid & ->).
    rewrite list_fmap_insert. apply list_insert_id.
    by rewrite list_lookup_fmap, Hlook, <- Hid.
  - by rewrite handleProjectSave_new.
Qed.

(** Saving keeps the ids of the collection distinct. *)
Lemma handleProjectSave_NoDup project prev :
  NoDup (SavedProject.id <$> prev) →
  NoDup (SavedProject.id <$> handleProjectSave project prev).
Proof.
  intros Hprev. rewrite handleProjectSave_ids. case_bool_decide; [done|].
  by apply NoDup_cons.
Qed.

(** Deleting keeps the ids of the collection distinct. *)
Lemma deleteProject_NoDup id confirmed prev :
  NoDup (SavedProject.id <$> prev) →
  NoDup (SavedProject.id <$> deleteProject id confirmed prev).
Proof.
  intros Hprev. unfold deleteProject. destruct confirmed; [|done].
  eapply sublist_NoDup; [exact Hprev | apply fmap_sublist, sublist_filter].
Qed.

(** Importing an array whose ids are distinct keeps the ids of the collection
    distinct. *)
Lemma mergeImported_NoDup json prev :
  NoDup (SavedProject.id <$> json) →
  NoDup (SavedProject.id <$> prev) →
  NoDup (SavedProject.id <$> mergeImported json prev).
Proof.
  intros Hjson Hprev. rewrite mergeImported_filter, fmap_app.
  apply NoDup_app. split; [|split; [|done]].
  - eapply sublist_NoDup; [exact Hjson | apply fmap_sublist, sublist_filter].
  - intros id Hin. apply list_elem_of_fmap in Hin as (j & -> & Hj).
    by apply list_elem_of_filter in Hj as [Hfresh _].
Qed.

(** C7. For a file that parses to an array of projects, the collection after
    the import is the imported projects whose ids are not in the collection,
    in file order, followed by the collection as it was.  For a file that
    parses to anything else, and for a file that does not parse, the import is
    refused with a message and the collection stays as it was. *)
Theorem handleGlobalImport_merges_by_id text prev :
  (∀ json, JSON_parse text = Resolved (JsonArray json) →
     fst (handleGlobalImport (Some text) prev)
     = filter (fun j => SavedProject.id j ∉ SavedProject.id <$> prev) json ++ prev)
  ∧ (∀ v, JSON_parse text = Resolved v → isArray v = false →
       handleGlobalImport (Some text) prev
       = (prev, Some "Invalid JSON format. Expected an array of projects."))
  ∧ (∀ e, JSON_parse text = Rejected e →
       handleGlobalImport (Some text) prev = (prev, Some "Failed to parse JSON file.")).
Proof.
  unfold handleGlobalImport. repeat split.
  - intros json ->. simpl. apply mergeImported_filter.
  - intros v -> Hv. by destruct v.
  - by intros e ->.
Qed.
End CollectionFacts.

(** One new and one already-present id: only the new project is added, in
    front, and the stored project with the present id is kept as it was.  A
    file holding an object is refused. *)
Lemma handleGlobalImport_merges_by_id_witness :
  let old := Scripted.project "proj-1" (Scripted.headline "news-1" "A") in
  let clash := SavedProject.mk "proj-1" (Scripted.headline "news-9" "Z") None "" [] in
  let new := Scripted.project "proj-2" (Scripted.headline "news-2" "B") in
  let text := Json.stringify_projects [new; clash] in
  JSON_parse (W:=Scripted.World) text = Resolved (JsonArray [new; clash])
  ∧ fst (handleGlobalImport (W:=Scripted.World) (Some text) [old]) = [new; old]
  ∧ JSON_parse (W:=Scripted.World) "{}" = Resolved (JsonObject [])
  ∧ handleGlobalImport (W:=Scripted.World) (Some "{}") [old]
    = ([old], Some "Invalid JSON format. Expected an array of projects.")
  ∧ JSON_parse (W:=Scripted.World) "[" = Rejected Json.SyntaxError
  ∧ handleGlobalImport (W:=Scripted.World) (Some "[") [old]
    = ([old], Some "Failed to parse JSON file.").
Proof.
  intros old clash new text.
  assert (Harray : JSON_parse (W:=Scripted.World) text = Resolved (JsonArray [new; clash]))
    by (vm_compute; reflexivity).
  assert (Hobject : JSON_parse (W:=Scripted.World) "{}" = Resolved (JsonObject []))
    by (vm_compute; reflexivity).
  assert (Hbroken : JSON_parse (W:=Scripted.World) "[" = Rejected Json.SyntaxError)
    by (vm_compute; reflexivity).
  split; [exact Harray|]. split.
  - rewrite (proj1 (handleGlobalImport_merges_by_id text [old]) _ Harray).
    vm_compute. reflexivity.
  - split; [exact Hobject|]. split.
    + exact (proj1 (proj2 (handleGlobalImport_merges_by_id "{}" [old])) _ Hobject eq_refl).
    + split; [exact Hbroken|].
      exact (proj2 (proj2 (handleGlobalImport_merges_by_id "[" [old])) _ Hbroken).
Defined.

(** C6 at its failing input. A file holding two projects with the same id,
    imported into the empty collection: both are added. *)
Theorem handleGlobalImport_repeated_id :
  let a := Scripted.project "proj-1" (Scripted.headline "news-1" "A") in
  let b := Scripted.project "proj-1" (Scripted.headline "news-2" "B") in
  let text := Json.stringify_projects [a; b] in
  let after := fst (handleGlobalImport (W:=Scripted.World) (Some text) []) in
  NoDup (SavedProject.id <$> ([] : list SavedProject.t))
  ∧ after = [a; b]
  ∧ ¬ NoDup (SavedProject.id <$> after).
Proof.
  intros a b text after.
  assert (Hafter : after = [a; b]) by (vm_compute; reflexivity).
  split; [constructor|]. split; [exact Hafter|].
  rewrite Hafter. intros Hnodup. apply NoDup_cons in Hnodup as [Hnotin _].
  apply Hnotin. constructor.
Qed.

(** ** Image search *)

Section ImageFacts.
Implicit Types (images pre rest : list GroundingImage.t) (v x : GroundingImage.t).

(** An image passes the duplicate filter exactly when no image before it has
    its url. *)
Lemma firstWithUrl_iff pre x rest :
  firstWithUrl x (Z.of_nat (length pre)) (pre ++ x :: rest) = true
  ↔ GroundingImage.url x ∉ GroundingImage.url <$> pre.
Proof.
  unfold firstWithUrl. rewrite Z.eqb_eq, findIndex_first. split.
  - intros [_ Hpre] Hin. apply list_elem_of_fmap in Hin as (y & Hy & Hyin).
    rewrite Forall_forall in Hpre. specialize (Hpre y Hyin).
    apply not_true_iff_false in Hpre. apply Hpre. by apply String.eqb_eq.
  - intros Hnotin. split; [apply String.eqb_refl|].
    apply Forall_forall. intros y Hyin. apply not_true_iff_false. intros Heq.
    apply Hnotin. apply String.eqb_eq in Heq as <-. by apply list_elem_of_fmap_2.
Qed.

(** One step of the filter over the rest of the array. *)
Lemma filter_from_firstWithUrl pre x rest :
  filter_from firstWithUrl (pre ++ x :: rest) (x :: rest) (Z.of_nat (length pre))
  = (if bool_decide (GroundingImage.url x ∈ GroundingImage.url <$> pre) then [] else [x])
    ++ filter_from firstWithUrl ((pre ++ [x]) ++ rest) rest (Z.of_nat (length (pre ++ [x]))).
Proof.
  simpl. rewrite length_app, Nat2Z.inj_add. simpl length.
  rewrite <- (assoc_L (++) pre [x] rest). simpl.
  case_bool_decide as Hin.
  - destruct (firstWithUrl x _ _) eqn:Hkeep; [|done].
    apply firstWithUrl_iff in Hkeep. done.
  - apply (firstWithUrl_iff pre x rest) in Hin. by rewrite Hin.
Qed.

(** What the filter keeps of [a], the part of the array after [pre]:
    distinct urls, none of them seen in [pre]; each kept image is the first of
    its url; every url of [a] is seen in [pre] or kept. *)
Lemma filter_from_unique a :
  ∀ pre,
    let kept := filter_from firstWithUrl (pre ++ a) a (Z.of_nat (length pre)) in
    NoDup (GroundingImage.url <$> kept)
    ∧ (∀ v, v ∈ kept →
         ∃ l1 l2, a = l1 ++ v :: l2
           ∧ GroundingImage.url v ∉ GroundingImage.url <$> (pre ++ l1))
    ∧ (∀ v, v ∈ a →
         GroundingImage.url v ∈ GroundingImage.url <$> pre
         ∨ GroundingImage.url v ∈ GroundingImage.url <$> kept).
Proof.
  induction a as [|x rest IH]; intros pre; cbv zeta.
  - simpl. split; [constructor|]. split; intros v Hv; by apply elem_of_nil in Hv.
  - rewrite filter_from_firstWithUrl.
    destruct (IH (pre ++ [x])) as (Hnodup & Hfirst & Hall). cbv zeta in *.
    set (tail := filter_from firstWithUrl ((pre ++ [x]) ++ rest) rest
                   (Z.of_nat (length (pre ++ [x])))) in *.
    assert (Htail : ∀ v, v ∈ tail →
              ∃ l1 l2, x :: rest = l1 ++ v :: l2
                ∧ GroundingImage.url v ∉ GroundingImage.url <$> (pre ++ l1)).
    { intros v Hv. destruct (Hfirst v Hv) as (l1 & l2 & -> & Hfresh).
      exists (x :: l1), l2. split; [done|].
      by rewrite <- (assoc_L (++) pre [x] l1) in Hfresh. }
    case_bool_decide as Hseen; simpl.
    + split; [done|]. split; [done|].
      intros v Hv. apply elem_of_cons in Hv as [-> | Hv]; [by left|].
      destruct (Hall v Hv) as [Hpre | Hkept]; [|by right].
      rewrite fmap_app, elem_of_app in Hpre. destruct Hpre as [Hpre | Hx]; [by left|].
      simpl in Hx. apply list_elem_of_singleton in Hx. left. by rewrite Hx.
    + split; [|split].
      * apply NoDup_cons. split; [|done].
        intros Hin. apply list_elem_of_fmap in Hin as (v & Hurl & Hv).
        destruct (Hfirst v Hv) as (l1 & l2 & _ & Hfresh).
        apply Hfresh. rewrite <- Hurl, !fmap_app. apply elem_of_app. left.
        apply elem_of_app. right. simpl. constructor.
      * intros v Hv. apply elem_of_cons in Hv as [-> | Hv]; [|by apply Htail].
        exists [], rest. split; [done|]. by rewrite app_nil_r.
      * intros v Hv. apply elem_of_cons in Hv as [-> | Hv].
        { right. simpl. constructor. }
        destruct (Hall v Hv) as [Hpre | Hkept].
        -- rewrite fmap_app, elem_of_app in Hpre. destruct Hpre as [Hpre | Hx]; [by left|].
           simpl in Hx. apply list_elem_of_singleton in Hx. right. rewrite Hx. simpl. constructor.
        -- right. simpl. by constructor.
Qed.

(** The duplicate filter keeps, for every url of the array, the first image
    with that url and no other. *)
Lemma uniqueImages_spec images :
  NoDup (GroundingImage.url <$> uniqueImages images)
  ∧ (∀ v, v ∈ uniqueImages images →
       ∃ l1 l2, images = l1 ++ v :: l2
         ∧ GroundingImage.url v ∉ GroundingImage.url <$> l1)
  ∧ (∀ v, v ∈ images →
       GroundingImage.url v ∈ GroundingImage.url <$> uniqueImages images).
Proof.
  destruct (filter_from_unique images []) as (Hnodup & Hfirst & Hall).
  simpl in *. unfold uniqueImages, filter_indexed. split; [done|]. split; [done|].
  intros v Hv. destruct (Hall v Hv) as [Hnil | Hkept]; [|done].
  by apply elem_of_nil in Hnil.
Qed.
End ImageFacts.

Section SearchFacts.
Context {W : Type} `{!Runtime W}.
Variable API_KEY : option string.

(** Without a key [getClient] throws, before the [try] block is entered. *)
Lemma searchRelatedImages_no_key queries (w : W) :
  truthy (apiKey API_KEY) = false →
  searchRelatedImages API_KEY queries w
  = (Rejected (Error "API Key not found in environment variables"), w).
Proof.
  intros Hkey. unfold searchRelatedImages, bind, of_outcome, getClient. by rewrite Hkey.
Qed.

(** With a key, the search resolves whatever the wrapped call does. *)
Lemma searchRelatedImages_with_key queries (w : W) :
  truthy (apiKey API_KEY) = true →
  searchRelatedImages API_KEY queries w
  = match retryOperation (generateContent (imageSearchRequest queries)) w with
    | (Resolved response, w') => (Resolved (imagesOfResponse response), w')
    | (Rejected _, w') => (Resolved [], w')
    end.
Proof.
  intros Hkey. unfold searchRelatedImages, bind, of_outcome, getClient, try_catch, ret.
  rewrite Hkey. simpl.
  by destruct (retryOperation _ w) as [[response | e] w'].
Qed.

(** C8. When the image-search call returns a response with grounding chunks,
    the search resolves with the first ten of the images collected from the
    chunks after the duplicate filter: the urls of the result are pairwise
    distinct, the result has at most ten entries, every image that passes the
    filter is the first collected image with its url, and every collected url
    passes the filter once. *)
Theorem searchRelatedImages_distinct_capped queries (w w' : W) response chunks :
  truthy (apiKey API_KEY) = true →
  retryOperation (generateContent (imageSearchRequest queries)) w = (Resolved response, w') →
  groundingChunksOf response = Some chunks →
  ∃ result,
    searchRelatedImages API_KEY queries w = (Resolved result, w')
    ∧ NoDup (GroundingImage.url <$> result)
    ∧ length result ≤ 10
    ∧ result = take 10 (uniqueImages (collectImages chunks))
    ∧ (∀ v, v ∈ uniqueImages (collectImages chunks) →
         ∃ l1 l2, collectImages chunks = l1 ++ v :: l2
           ∧ GroundingImage.url v ∉ GroundingImage.url <$> l1)
    ∧ (∀ v, v ∈ collectImages chunks →
         GroundingImage.url v ∈ GroundingImage.url <$> uniqueImages (collectImages chunks)).
Proof.
  intros Hkey Hcall Hchunks.
  destruct (uniqueImages_spec (collectImages chunks)) as (Hnodup & Hfirst & Hall).
  exists (take 10 (uniqueImages (collectImages chunks))).
  split; [|split; [|split; [|split; [done | split; done]]]].
  - rewrite searchRelatedImages_with_key, Hcall by done.
    unfold imagesOfResponse, slice0. by rewrite Hchunks.
  - rewrite fmap_take. eapply sublist_NoDup; [exact Hnodup | apply sublist_take].
  - rewrite length_take. lia.
Qed.

(** C10. The image search makes its call on the client, which [getClient]
    gives when an API key is configured.  It then never propagates an error:
    it always resolves, and when the wrapped call fails, whatever the error
    (rate-limited or not) and after however many attempts, it resolves with
    the empty list in the world the failure left. *)
Theorem searchRelatedImages_failure_is_empty queries (w : W) :
  truthy (apiKey API_KEY) = true →
  (∃ result w', searchRelatedImages API_KEY queries w = (Resolved result, w'))
  ∧ (∀ e w', retryOperation (generateContent (imageSearchRequest queries)) w
             = (Rejected e, w') →
       searchRelatedImages API_KEY queries w = (Resolved [], w')).
Proof.
  intros Hkey. rewrite searchRelatedImages_with_key by done. split.
  - destruct (retryOperation _ w) as [[response | e] w']; eauto.
  - by intros e w' ->.
Qed.
End SearchFacts.

(** Thirteen chunks, one skipped and one a repeated url: eleven distinct
    images pass the filter and ten are returned. *)
Lemma searchRelatedImages_distinct_capped_witness :
  let response := Scripted.groundedResponse Scripted.manyChunks in
  let w := Scripted.start [Resolved response] in
  let w' := snd (retryOperation (generateContent (imageSearchRequest ["summit"])) w) in
  truthy (apiKey (Some "key")) = true
  ∧ retryOperation (generateContent (imageSearchRequest ["summit"])) w = (Resolved response, w')
  ∧ groundingChunksOf response = Some Scripted.manyChunks
  ∧ ∃ result,
      searchRelatedImages (Some "key") ["summit"] w = (Resolved result, w')
      ∧ NoDup (GroundingImage.url <$> result)
      ∧ length result = 10%nat
      ∧ length (uniqueImages (collectImages Scripted.manyChunks)) = 11%nat.
Proof.
  intros response w w'.
  assert (Hkey : truthy (apiKey (Some "key")) = true) by reflexivity.
  assert (Hcall : retryOperation (generateContent (imageSearchRequest ["summit"])) w
                  = (Resolved response, w')) by (vm_compute; reflexivity).
  assert (Hchunks : groundingChunksOf response = Some Scripted.manyChunks) by reflexivity.
  split; [exact Hkey|]. split; [exact Hcall|]. split; [exact Hchunks|].
  destruct (searchRelatedImages_distinct_capped (Some "key") ["summit"] w w' response
              Scripted.manyChunks Hkey Hcall Hchunks)
    as (result & Hsearch & Hnodup & _ & Hresult & _).
  exists result. split; [exact Hsearch|]. split; [exact Hnodup|]. split.
  - rewrite Hresult. vm_compute. reflexivity.
  - vm_compute. reflexivity.
Defined.

(** A server error on the first attempt, and three rate-limit errors in a
    row: the search resolves with the empty list both times. *)
Lemma searchRelatedImages_failure_is_empty_witness :
  let down := Scripted.start [Rejected Scripted.serverError] in
  let busy := Scripted.start [Rejected Scripted.tooManyRequests;
                              Rejected Scripted.tooManyRequests;
                              Rejected Scripted.tooManyRequests] in
  let call := retryOperation (generateContent (imageSearchRequest ["summit"])) in
  truthy (apiKey (Some "key")) = true
  ∧ call down = (Rejected Scripted.serverError, snd (call down))
  ∧ searchRelatedImages (Some "key") ["summit"] down = (Resolved [], snd (call down))
  ∧ call busy = (Rejected Scripted.tooManyRequests, snd (call busy))
  ∧ searchRelatedImages (Some "key") ["summit"] busy = (Resolved [], snd (call busy))
  ∧ length (Scripted.requests (snd (call busy))) = 3%nat.
Proof.
  intros down busy call.
  assert (Hdown : call down = (Rejected Scripted.serverError, snd (call down)))
    by (vm_compute; reflexivity).
  assert (Hbusy : call busy = (Rejected Scripted.tooManyRequests, snd (call busy)))
    by (vm_compute; reflexivity).
  split; [reflexivity|]. split; [exact Hdown|]. split.
  - exact (proj2 (searchRelatedImages_failure_is_empty (Some "key") ["summit"] down eq_refl)
             _ _ Hdown).
  - split; [exact Hbusy|]. split.
    + exact (proj2 (searchRelatedImages_failure_is_empty (Some "key") ["summit"] busy eq_refl)
               _ _ Hbusy).
    + vm_compute; reflexivity.
Defined.

(** ** JSON: what is written is read back *)

Module JsonFacts.
Import Json.

Lemma append_cons c (a b : string) : String c a +:+ b = String c (a +:+ b).
Proof. reflexivity. Qed.

Lemma append_nil (b : string) : "" +:+ b = b.
Proof. reflexivity. Qed.

Lemma append_assoc (a b c : string) : (a +:+ b) +:+ c = a +:+ b +:+ c.
Proof. induction a as [|ch a IH]; [done|]. rewrite !append_cons. by f_equal. Qed.

Lemma append_empty_r (a : string) : a +:+ "" = a.
Proof. induction a as [|ch a IH]; [done|]. rewrite append_cons. by f_equal. Qed.

Lemma length_append (a b : string) :
  String.length (a +:+ b) = (String.length a + String.length b)%nat.
Proof.
  induction a as [|ch a IH]; [done|].
  rewrite append_cons. simpl. by rewrite IH.
Qed.

(** Induction over values, with the hypothesis for every item of an array and
    every member of an object. *)
Lemma value_ind (P : t → Prop) :
  P Null → (∀ b, P (Bool b)) → (∀ n, P (Num n)) → (∀ s, P (Str s)) →
  (∀ items, Forall P items → P (Arr items)) →
  (∀ members, Forall (fun kv => P (snd kv)) members → P (Obj members)) →
  ∀ j, P j.
Proof.
  intros HNull HBool HNum HStr HArr HObj.
  fix IH 1. intros [| b | n | s | items | members].
  - exact HNull.
  - apply HBool.
  - apply HNum.
  - apply HStr.
  - apply HArr. induction items as [|x items IHitems]; constructor; [apply IH | exact IHitems].
  - apply HObj. induction members as [|[k x] members IHmembers]; constructor;
      [apply IH | exact IHmembers].
Qed.

(** A character is read back from what is written for it: itself, its
    short escape or its [\u00xx]. *)
Lemma read_string_escape_char c rest :
  read_string (escape_char c +:+ rest) = prepend (String c "") (read_string rest).
Proof. destruct c as [[] [] [] [] [] [] [] []]; reflexivity. Qed.

(** A string literal is read back whatever follows its closing quote. *)
Lemma read_string_escape s rest :
  read_string (escape s +:+ String quote rest) = Some (s, rest).
Proof.
  induction s as [|c s IH]; [reflexivity|].
  change (escape (String c s)) with (escape_char c +:+ escape s).
  by rewrite append_assoc, read_string_escape_char, IH.
Qed.

Lemma print_string_append s rest :
  print_string s +:+ rest = String quote (escape s +:+ String quote rest).
Proof.
  unfold print_string. rewrite append_cons. f_equal.
  by rewrite append_assoc, append_cons, append_nil.
Qed.

(** A plain value is printed as at least one character, which is no white
    space and closes neither an array nor an object. *)
Lemma print_head j :
  plain j = true →
  ∃ c s, print j = String c s ∧ c ≠ "]"%char ∧ c ≠ "}"%char ∧ is_ws c = false.
Proof.
  destruct j as [| [|] | n | s | items | members]; intros Hplain; try discriminate;
    simpl; eexists _, _; (split; [reflexivity | split; [discriminate | split; [discriminate | reflexivity]]]).
Qed.

Lemma skip_ws_head c s : is_ws c = false → skip_ws (String c s) = String c s.
Proof. intros Hc. simpl. by rewrite Hc. Qed.

Lemma starts_with_same c s : is_ws c = false → starts_with c (skip_ws (String c s)) = Some s.
Proof. intros Hc. rewrite skip_ws_head by done. unfold starts_with. by rewrite Ascii.eqb_refl. Qed.

Lemma starts_with_other c d s :
  d ≠ c → is_ws d = false → starts_with c (skip_ws (String d s)) = None.
Proof.
  intros Hne Hd. rewrite skip_ws_head by done.
  unfold starts_with. by apply Ascii.eqb_neq in Hne as ->.
Qed.

Lemma parse_Elems fuel acc s :
  parse (S fuel) (Elems acc) s
  = match parse fuel Value s with
    | Some (v, after) =>
        match starts_with ","%char (skip_ws after) with
        | Some after' => parse fuel (Elems (v :: acc)) after'
        | None =>
            match starts_with "]"%char (skip_ws after) with
            | Some after' => Some (Arr (rev (v :: acc)), after')
            | None => None
            end
        end
    | None => None
    end.
Proof. reflexivity. Qed.

Lemma parse_Members fuel acc s :
  parse (S fuel) (Members acc) (String quote s)
  = match read_string s with
    | Some (k, after) =>
        match starts_with ":"%char (skip_ws after) with
        | Some after' =>
            match parse fuel Value after' with
            | Some (v, after'') =>
                match starts_with ","%char (skip_ws after'') with
                | Some next => parse fuel (Members ((k, v) :: acc)) next
                | None =>
                    match starts_with "}"%char (skip_ws after'') with
                    | Some next => Some (Obj (rev ((k, v) :: acc)), next)
                    | None => None
                    end
                end
            | None => None
            end
        | None => None
        end
    | None => None
    end.
Proof. reflexivity. Qed.

Lemma parse_Arr fuel rest :
  parse (S fuel) Value (String "["%char rest)
  = match starts_with "]"%char (skip_ws rest) with
    | Some after => Some (Arr [], after)
    | None => parse fuel (Elems []) rest
    end.
Proof. reflexivity. Qed.

Lemma parse_Obj fuel rest :
  parse (S fuel) Value (String "{"%char rest)
  = match starts_with "}"%char (skip_ws rest) with
    | Some after => Some (Obj [], after)
    | None => parse fuel (Members []) rest
    end.
Proof. reflexivity. Qed.

Lemma parse_Str fuel rest :
  parse (S fuel) Value (String quote rest)
  = match read_string rest with
    | Some (body, after) => Some (Str body, after)
    | None => None
    end.
Proof. reflexivity. Qed.

Lemma commas_two (x y : string) l : commas (x :: y :: l) = x +:+ "," +:+ commas (y :: l).
Proof. reflexivity. Qed.

(** The items of a non-empty array are read back up to the closing bracket. *)
Lemma parse_items items :
  Forall (fun x => plain x = true ∧ reads_back x) items →
  items ≠ [] →
  ∀ acc fuel rest,
    String.length (commas (map print items)) < fuel →
    parse fuel (Elems acc) (commas (map print items) +:+ String "]"%char rest)
    = Some (Arr (rev acc ++ items), rest).
Proof.
  intros Hall. induction Hall as [|x items [Hplain Hx] Hall IH]; [done|].
  intros _ acc fuel rest Hfuel. destruct fuel as [|fuel]; [lia|].
  rewrite parse_Elems. destruct items as [|y items].
  - simpl map in *. simpl commas in *.
    rewrite Hx by lia.
    rewrite starts_with_other by (discriminate || reflexivity).
    by rewrite starts_with_same by reflexivity.
  - assert (Hlen : String.length (commas (map print (x :: y :: items)))
                   = (String.length (print x) + S (String.length (commas (map print (y :: items)))))%nat).
    { change (map print (x :: y :: items)) with (print x :: map print (y :: items)).
      change (map print (y :: items)) with (print y :: map print items).
      by rewrite commas_two, length_append, append_cons, append_nil. }
    rewrite Hlen in Hfuel.
    change (commas (map print (x :: y :: items)))
      with (print x +:+ "," +:+ commas (map print (y :: items))).
    rewrite !append_assoc, append_cons, append_nil.
    rewrite Hx by lia. rewrite starts_with_same by reflexivity.
    rewrite IH by (done || lia). simpl. by rewrite <- app_assoc.
Qed.

Lemma print_member_append k x rest :
  print_member (k, x) +:+ rest
  = String quote (escape k +:+ String quote (String ":"%char (print x +:+ rest))).
Proof.
  unfold print_member. simpl fst. simpl snd.
  by rewrite append_assoc, print_string_append, append_assoc, append_cons, append_nil.
Qed.

Lemma length_print_member k x :
  String.length (print x) < String.length (print_member (k, x)).
Proof.
  unfold print_member, print_string. simpl fst. simpl snd.
  rewrite length_append, append_cons, append_nil. simpl String.length. lia.
Qed.

(** The members of a non-empty object are read back up to the closing brace. *)
Lemma parse_members members :
  Forall (fun kv => plain (snd kv) = true ∧ reads_back (snd kv)) members →
  members ≠ [] →
  ∀ acc fuel rest,
    String.length (commas (map print_member members)) < fuel →
    parse fuel (Members acc) (commas (map print_member members) +:+ String "}"%char rest)
    = Some (Obj (rev acc ++ members), rest).
Proof.
  intros Hall. induction Hall as [|[k x] members [Hplain Hx] Hall IH]; [done|].
  intros _ acc fuel rest Hfuel. destruct fuel as [|fuel]; [lia|].
  simpl snd in *. pose proof (length_print_member k x) as Hmember.
  destruct members as [|m members].
  - simpl map in *. simpl commas in *.
    rewrite print_member_append, parse_Members, read_string_escape.
    rewrite starts_with_same by reflexivity. rewrite Hx by lia.
    rewrite starts_with_other by (discriminate || reflexivity).
    by rewrite starts_with_same by reflexivity.
  - assert (Hlen : String.length (commas (map print_member ((k, x) :: m :: members)))
                   = (String.length (print_member (k, x))
                      + S (String.length (commas (map print_member (m :: members)))))%nat).
    { change (map print_member ((k, x) :: m :: members))
        with (print_member (k, x) :: map print_member (m :: members)).
      change (map print_member (m :: members)) with (print_member m :: map print_member members).
      by rewrite commas_two, length_append, append_cons, append_nil. }
    rewrite Hlen in Hfuel.
    change (commas (map print_member ((k, x) :: m :: members)))
      with (print_member (k, x) +:+ "," +:+ commas (map print_member (m :: members))).
    rewrite append_assoc, print_member_append, parse_Members, read_string_escape.
    rewrite starts_with_same by reflexivity.
    rewrite append_assoc, append_cons, append_nil.
    rewrite Hx by lia. rewrite starts_with_same by reflexivity.
    rewrite IH by (done || lia). simpl. by rewrite <- app_assoc.
Qed.

(** Every plain value is read back from its text, whatever follows it. *)
Lemma parse_print j : plain j = true → reads_back j.
Proof.
  induction j as [| b | n | s | items IH | members IH] using value_ind; intros Hplain.
  - intros [|fuel] rest Hfuel; [simpl in Hfuel; lia | reflexivity].
  - intros [|fuel] rest Hfuel; [destruct b; simpl in Hfuel; lia|].
    by destruct b.
  - discriminate.
  - intros [|fuel] rest Hfuel; [simpl in Hfuel; lia|].
    simpl print. by rewrite print_string_append, parse_Str, read_string_escape.
  - intros [|fuel] rest Hfuel; [simpl in Hfuel; lia|].
    assert (Htext : print (Arr items) +:+ rest
                    = String "["%char (commas (map print items) +:+ String "]"%char rest)).
    { change (print (Arr items)) with ("[" +:+ commas (map print items) +:+ "]").
      by rewrite !append_cons, !append_nil, append_assoc, append_cons, append_nil. }
    assert (Hlen : String.length (print (Arr items))
                   = S (S (String.length (commas (map print items))))).
    { change (print (Arr items)) with ("[" +:+ commas (map print items) +:+ "]").
      rewrite append_cons, append_nil. simpl String.length. rewrite length_append.
      simpl String.length. lia. }
    rewrite Hlen in Hfuel. rewrite Htext, parse_Arr.
    simpl in Hplain. rewrite forallb_forall in Hplain.
    assert (Hall : Forall (fun x => plain x = true ∧ reads_back x) items).
    { rewrite Forall_forall in IH. apply Forall_forall. intros x Hx.
      assert (plain x = true) by (apply Hplain; by apply list_elem_of_In). auto. }
    destruct items as [|x items].
    + change (commas (map print [])) with "". rewrite append_nil.
      by rewrite starts_with_same by reflexivity.
    + apply Forall_cons in Hall as Hhead. destruct Hhead as [[Hx _] _].
      destruct (print_head x Hx) as (c & tail & Hprint & Hc & _ & Hws).
      assert (Hstart : starts_with "]"%char
                (skip_ws (commas (map print (x :: items)) +:+ String "]"%char rest)) = None).
      { destruct items as [|y items].
        - simpl map. simpl commas. rewrite Hprint, append_cons. by apply starts_with_other.
        - change (commas (map print (x :: y :: items)))
            with (print x +:+ "," +:+ commas (map print (y :: items))).
          rewrite Hprint, !append_cons. by apply starts_with_other. }
      rewrite Hstart. by rewrite parse_items by (done || lia).
  - intros [|fuel] rest Hfuel; [simpl in Hfuel; lia|].
    assert (Htext : print (Obj members) +:+ rest
                    = String "{"%char (commas (map print_member members) +:+ String "}"%char rest)).
    { change (print (Obj members)) with ("{" +:+ commas (map print_member members) +:+ "}").
      by rewrite !append_cons, !append_nil, append_assoc, append_cons, append_nil. }
    assert (Hlen : String.length (print (Obj members))
                   = S (S (String.length (commas (map print_member members))))).
    { change (print (Obj members)) with ("{" +:+ commas (map print_member members) +:+ "}").
      rewrite append_cons, append_nil. simpl String.length. rewrite length_append.
      simpl String.length. lia. }
    rewrite Hlen in Hfuel. rewrite Htext, parse_Obj.
    simpl in Hplain. rewrite forallb_forall in Hplain.
    assert (Hall : Forall (fun kv => plain (snd kv) = true ∧ reads_back (snd kv)) members).
    { rewrite Forall_forall in IH. apply Forall_forall. intros kv Hkv.
      assert (plain (snd kv) = true) by (apply Hplain; by apply list_elem_of_In). auto. }
    destruct members as [|[k x] members].
    + change (commas (map print_member [])) with "". rewrite append_nil.
      by rewrite starts_with_same by reflexivity.
    + assert (Hstart : starts_with "}"%char
                (skip_ws (commas (map print_member ((k, x) :: members)) +:+ String "}"%char rest))
                = None).
      { destruct members as [|m members].
        - simpl map. simpl commas. rewrite print_member_append.
          by apply starts_with_other.
        - change (commas (map print_member ((k, x) :: m :: members)))
            with (print_member (k, x) +:+ "," +:+ commas (map print_member (m :: members))).
          rewrite append_assoc, print_member_append. by apply starts_with_other. }
      rewrite Hstart. by rewrite parse_members by (done || lia).
Qed.

(** A plain value is read back from its whole text. *)
Lemma parse_text_print j : plain j = true → parse_text (print j) = Some j.
Proof.
  intros Hplain. unfold parse_text.
  rewrite <- (append_empty_r (print j)) at 2.
  by rewrite (parse_print j Hplain) by lia.
Qed.
Lemma mapM_decode {A} (enc : A → t) (dec : t → option A) :
  (∀ a, dec (enc a) = Some a) → ∀ l, mapM dec (enc <$> l) = Some l.
Proof.
  intros Hdec l. induction l as [|a l IH]; [done|].
  rewrite fmap_cons. simpl. by rewrite Hdec, IH.
Qed.

Lemma forallb_plain {A} (enc : A → t) :
  (∀ a, plain (enc a) = true) → ∀ l, forallb plain (enc <$> l) = true.
Proof.
  intros Hplain l. induction l as [|a l IH]; [done|].
  rewrite fmap_cons. simpl. by rewrite Hplain, IH.
Qed.

Lemma mapM_as_string l : mapM as_string (Str <$> l) = Some l.
Proof. by apply mapM_decode. Qed.

Lemma forallb_plain_Str (l : list string) : forallb plain (Str <$> l) = true.
Proof. by apply forallb_plain. Qed.

Lemma to_news_of_news n : to_news (of_news n) = Some n.
Proof. by destruct n as [id title snippet [source|] [url|] [publishedDate|]]. Qed.

Lemma plain_of_news n : plain (of_news n) = true.
Proof. by destruct n as [id title snippet [source|] [url|] [publishedDate|]]. Qed.

Lemma to_content_of_content c : to_content (of_content c) = Some c.
Proof.
  destruct c as [se sb sc fb titles prompts queries].
  unfold to_content, of_content, str_field. simpl.
  by rewrite !mapM_as_string.
Qed.

Lemma plain_of_content c : plain (of_content c) = true.
Proof.
  destruct c as [se sb sc fb titles prompts queries].
  unfold of_content. simpl. by rewrite !forallb_plain_Str.
Qed.

Lemma to_image_of_image g : to_image (of_image g) = Some g.
Proof. by destruct g. Qed.

Lemma plain_of_image g : plain (of_image g) = true.
Proof. by destruct g. Qed.

Lemma to_project_of_project p : to_project (of_project p) = Some p.
Proof.
  destruct p as [id newsItem content savedAt images].
  unfold to_project, of_project, str_field. simpl.
  rewrite to_news_of_news. simpl.
  assert (Himages : mapM to_image (of_image <$> images) = Some images)
    by (apply mapM_decode, to_image_of_image).
  destruct content as [c|]; simpl.
  - pose proof (to_content_of_content c) as Hcontent.
    destruct c as [se sb sc fb titles prompts queries].
    unfold to_content, of_content, str_field in *. simpl in *.
    rewrite Hcontent. simpl. by rewrite Himages.
  - by rewrite Himages.
Qed.

Lemma plain_of_project p : plain (of_project p) = true.
Proof.
  destruct p as [id newsItem content savedAt images].
  unfold of_project. cbn -[of_news of_content of_image].
  rewrite plain_of_news, (forallb_plain of_image plain_of_image).
  destruct content as [c|]; [by rewrite plain_of_content | done].
Qed.

(** What [JSON.stringify] writes of a collection, [JSON.parse] reads back as
    the collection. *)
Lemma parse_value_stringify ps :
  parse_value (stringify_projects ps) = Resolved (JsonArray ps).
Proof.
  unfold parse_value, stringify_projects.
  rewrite parse_text_print by (simpl; apply (forallb_plain of_project plain_of_project)).
  by rewrite (mapM_decode of_project to_project to_project_of_project).
Qed.

(** The text of a collection is never empty. *)
Lemma stringify_truthy ps : truthy (stringify_projects ps) = true.
Proof. reflexivity. Qed.

(** The text of a plain value is never empty. *)
Lemma print_truthy j : plain j = true → truthy (print j) = true.
Proof. intros Hplain. by destruct (print_head j Hplain) as (c & s & -> & _). Qed.

(** Every text of a collection is read back as the collection. *)
Lemma parse_value_print j ps :
  plain j = true → as_list to_project j = Some ps →
  parse_value (print j) = Resolved (JsonArray ps).
Proof.
  intros Hplain Hreads. unfold parse_value. rewrite parse_text_print by done.
  destruct j as [| b | n | s | items | members]; try discriminate.
  simpl in Hreads. by rewrite Hreads.
Qed.

(** What [JSON.stringify] writes is one of the texts of the collection. *)
Lemma writes_stringify ps : writes ps (stringify_projects ps).
Proof.
  exists (Arr (of_project <$> ps)). split; [|split; [|done]].
  - apply (forallb_plain of_project plain_of_project).
  - apply (mapM_decode of_project to_project to_project_of_project).
Qed.
End JsonFacts.

(** ** Persistence *)

Section PersistenceFacts.
Context {W : Type} `{!Runtime W}.

(** Reloading after a write parses the text just written, as long as that
    text is not the empty string. *)
Lemma initialSavedProjects_sync (savedProjects : list SavedProject.t)
    (localStorage : gmap string string) :
  truthy (JSON_stringify savedProjects) = true →
  initialSavedProjects (syncSavedProjects savedProjects localStorage)
  = JSON_parse (JSON_stringify savedProjects).
Proof.
  intros Htext. unfold initialSavedProjects, syncSavedProjects.
  rewrite lookup_insert_eq. by rewrite Htext.
Qed.

(** With nothing stored under the key, the collection starts empty. *)
Lemma initialSavedProjects_fresh (localStorage : gmap string string) :
  localStorage !! policast_saved = None →
  initialSavedProjects localStorage = Resolved (JsonArray []).
Proof. intros Hnone. unfold initialSavedProjects. by rewrite Hnone. Qed.
End PersistenceFacts.

(** C9. With the platform's [JSON.stringify] and [JSON.parse] ([Json]; the
    two functions of the statement use nothing else of the runtime, and
    [Scripted.World] is the one that has them): writing a collection to local
    storage touches the one key [policast_saved] only, and reloading from
    that key yields the collection itself, every project with every field,
    hence the same set of project ids.  This holds of every collection,
    whatever its strings contain, and it does not depend on the order in
    which the text has the members of an object: every text that writes the
    collection is read back as the collection. *)
Theorem savedProjects_round_trip (savedProjects : list SavedProject.t)
    (localStorage : gmap string string) :
  (∀ key, key ≠ policast_saved →
     syncSavedProjects (W:=Scripted.World) savedProjects localStorage !! key
     = localStorage !! key)
  ∧ (∃ reloaded,
       initialSavedProjects (W:=Scripted.World)
         (syncSavedProjects (W:=Scripted.World) savedProjects localStorage)
       = Resolved (JsonArray reloaded)
       ∧ reloaded = savedProjects
       ∧ (list_to_set (SavedProject.id <$> reloaded) : gset string)
         = list_to_set (SavedProject.id <$> savedProjects))
  ∧ (∀ text, Json.writes savedProjects text →
       initialSavedProjects (W:=Scripted.World) (<[policast_saved := text]> localStorage)
       = Resolved (JsonArray savedProjects)).
Proof.
  split; [|split].
  - intros key Hkey. unfold syncSavedProjects. by rewrite lookup_insert_ne.
  - exists savedProjects. split; [|done].
    rewrite initialSavedProjects_sync by apply JsonFacts.stringify_truthy.
    apply JsonFacts.parse_value_stringify.
  - intros text (j & Hplain & Hreads & ->).
    unfold initialSavedProjects. rewrite lookup_insert_eq.
    rewrite (JsonFacts.print_truthy j Hplain).
    by apply JsonFacts.parse_value_print.
Qed.

(** Two projects next to another key.  The title of the first holds quotation
    marks, a line feed, a tab, a backslash and a letter outside ASCII; the
    second has generated content.  The stored text is the one shown; it is
    read back as the two projects, and so is [other], a text of the two
    projects that has the members of the objects in another order. *)
Lemma savedProjects_round_trip_witness :
  let title :=
    Scripted.quoted "He said 'no'" +:+ Scripted.newline +:+ Scripted.tab +:+ "50\50 in Genève" in
  let p1 := SavedProject.mk "proj-1"
              (NewsItem.mk "news-1" title "s" (Some "agency") None None)
              None "2024-01-01T00:00:00.000Z" [] in
  let p2 := SavedProject.mk "proj-2"
              (NewsItem.mk "news-2" "C" "s" None (Some "https://x.example/c") None)
              (Some (GeneratedContent.mk "en" "my" "[Show map] script" "post" ["t1"; "t2"] [] ["q"]))
              "2024-01-02T00:00:00.000Z"
              [GroundingImage.mk "https://x.example/a.png" "A" "A"] in
  let other :=
    Scripted.quoted
      ("[{'newsItem':{'title':'He said \'no\'\n\t50\\50 in Genève','snippet':'s',"
       +:+ "'source':'agency','id':'news-1'},'groundingImages':[],"
       +:+ "'savedAt':'2024-01-01T00:00:00.000Z','generatedContent':null,'id':'proj-1'},"
       +:+ "{'groundingImages':[{'source':'A','title':'A','url':'https://x.example/a.png'}],"
       +:+ "'generatedContent':{'imageQueries':['q'],'visualPrompts':[],"
       +:+ "'burmeseTitles':['t1','t2'],'facebookPostBurmese':'post',"
       +:+ "'scriptBurmese':'[Show map] script','summaryBurmese':'my','summaryEnglish':'en'},"
       +:+ "'newsItem':{'title':'C','snippet':'s','url':'https://x.example/c','id':'news-2'},"
       +:+ "'savedAt':'2024-01-02T00:00:00.000Z','id':'proj-2'}]") in
  let storage : gmap string string := {[ "theme" := "dark" ]} in
  let stored := syncSavedProjects (W:=Scripted.World) [p1; p2] storage in
  stored !! policast_saved
  = Some (Scripted.quoted
      ("[{'id':'proj-1','newsItem':{'id':'news-1',"
       +:+ "'title':'He said \'no\'\n\t50\\50 in Genève','snippet':'s','source':'agency'},"
       +:+ "'generatedContent':null,'savedAt':'2024-01-01T00:00:00.000Z','groundingImages':[]},"
       +:+ "{'id':'proj-2','newsItem':{'id':'news-2','title':'C','snippet':'s',"
       +:+ "'url':'https://x.example/c'},"
       +:+ "'generatedContent':{'summaryEnglish':'en','summaryBurmese':'my',"
       +:+ "'scriptBurmese':'[Show map] script','facebookPostBurmese':'post',"
       +:+ "'burmeseTitles':['t1','t2'],'visualPrompts':[],'imageQueries':['q']},"
       +:+ "'savedAt':'2024-01-02T00:00:00.000Z',"
       +:+ "'groundingImages':[{'url':'https://x.example/a.png','title':'A','source':'A'}]}]"))
  ∧ initialSavedProjects (W:=Scripted.World) stored = Resolved (JsonArray [p1; p2])
  ∧ stored !! "theme" = Some "dark"
  ∧ Json.writes [p1; p2] other
  ∧ initialSavedProjects (W:=Scripted.World) (<[policast_saved := other]> storage)
    = Resolved (JsonArray [p1; p2]).
Proof.
  intros title p1 p2 other storage stored.
  destruct (savedProjects_round_trip [p1; p2] storage)
    as (Hother & (reloaded & Hload & Hsame & _) & Hany).
  assert (Hwrites : Json.writes [p1; p2] other).
  { exists (default Json.Null (Json.parse_text other)).
    split; [vm_compute; reflexivity|]. split; vm_compute; reflexivity. }
  split; [vm_compute; reflexivity|]. split; [|split; [|split]].
  - unfold stored. rewrite Hload. by rewrite Hsame.
  - unfold stored. rewrite Hother; [reflexivity | discriminate].
  - exact Hwrites.
  - exact (Hany other Hwrites).
Defined.

(** ** Generating and saving *)

Section DetailViewFacts.
Context {W : Type} `{!Runtime W}.
Variable API_KEY : option string.

(** The content kit is generated only with an API key. *)
Lemma generateContentKit_needs_key newsItem (w w' : W) generated :
  generateContentKit API_KEY newsItem w = (Resolved generated, w') →
  truthy (apiKey API_KEY) = true.
Proof.
  unfold generateContentKit, bind, of_outcome, getClient.
  destruct (truthy (apiKey API_KEY)); [done | discriminate].
Qed.

(** The project built for a save carries the news item of the view and the
    content it is given. *)
Lemma buildProject_fields p content images (w : W) :
  SavedProject.newsItem (fst (buildProject p content images w)) = DetailView.newsItem p
  ∧ SavedProject.generatedContent (fst (buildProject p content images w)) = Some content
  ∧ SavedProject.groundingImages (fst (buildProject p content images w)) = images.
Proof.
  unfold buildProject. destruct (projectId p w) as [id w1].
  by destruct (Date_now w1) as [now w2].
Qed.

(** A saved project is in the collection afterwards. *)
Lemma handleProjectSave_elem project (prev : list SavedProject.t) :
  project ∈ handleProjectSave project prev.
Proof.
  destruct (decide (SavedProject.id project ∈ SavedProject.id <$> prev)) as [Hold | Hnew].
  - destruct (handleProjectSave_existing project prev Hold) as (k & q & Hlook & _ & ->).
    apply list_elem_of_lookup. exists k. apply list_lookup_insert_eq.
    by eapply lookup_lt_Some.
  - rewrite handleProjectSave_new by done. constructor.
Qed.

(** What [handleGenerate] passes to the save callback. *)
Lemma handleGenerate_onSave {P : Type} (onSave : SavedProject.t → P → P)
    p st (parent : P) (w : W) :
  match generateContentKit API_KEY (DetailView.newsItem p) w with
  | (Rejected _, w1) =>
      handleGenerate API_KEY onSave p st parent w = (generationFailed st, parent, w1)
  | (Resolved generated, w1) =>
      ∃ images w2 st',
        handleGenerate API_KEY onSave p st parent w
        = (st', onSave (fst (buildProject p generated images w2)) parent,
           snd (buildProject p generated images w2))
        ∧ DetailView.content st' = Some generated
        ∧ DetailView.groundingImages st' = images
  end.
Proof.
  unfold handleGenerate.
  destruct (generateContentKit API_KEY (DetailView.newsItem p) w) as [[generated | e] w1] eqn:Hkit;
    [|done].
  apply generateContentKit_needs_key in Hkit.
  destruct (GeneratedContent.imageQueries generated) as [|q queries] eqn:Hq.
  - unfold ret. exists [], w1. destruct (buildProject p generated [] w1) as [project w3].
    by eexists.
  - rewrite searchRelatedImages_with_key by done.
    destruct (retryOperation _ w1) as [[response | e] w2].
    + exists (imagesOfResponse response), w2.
      destruct (buildProject p generated _ w2) as [project w3]. by eexists.
    + exists [], w2. destruct (buildProject p generated [] w2) as [project w3]. by eexists.
Qed.

(** C1, as the code has it. Generation saves: when the content kit is
    generated, [handleGenerate] itself saves a project holding the news item
    and the generated kit, and the project is in the collection afterwards;
    when generation fails the collection is left as it was.  The explicit save
    does the same with the content on screen, and nothing when there is
    none. *)
Theorem handleGenerate_saves_project p st (prev : list SavedProject.t) (w : W) :
  match generateContentKit API_KEY (DetailView.newsItem p) w with
  | (Rejected _, _) =>
      snd (fst (handleGenerate API_KEY handleProjectSave p st prev w)) = prev
  | (Resolved generated, _) =>
      ∃ project,
        snd (fst (handleGenerate API_KEY handleProjectSave p st prev w))
        = handleProjectSave project prev
        ∧ project ∈ snd (fst (handleGenerate API_KEY handleProjectSave p st prev w))
        ∧ SavedProject.newsItem project = DetailView.newsItem p
        ∧ SavedProject.generatedContent project = Some generated
  end
  ∧ match DetailView.content st with
    | None => handleLocalSave handleProjectSave p st prev w = (prev, w)
    | Some content =>
        ∃ project,
          fst (handleLocalSave handleProjectSave p st prev w) = handleProjectSave project prev
          ∧ SavedProject.newsItem project = DetailView.newsItem p
          ∧ SavedProject.generatedContent project = Some content
    end.
Proof.
  split.
  - pose proof (handleGenerate_onSave handleProjectSave p st prev w) as Hgen.
    destruct (generateContentKit API_KEY (DetailView.newsItem p) w) as [[generated | e] w1].
    + destruct Hgen as (images & w2 & st' & -> & _). simpl.
      exists (fst (buildProject p generated images w2)).
      destruct (buildProject_fields p generated images w2) as (Hnews & Hcontent & _).
      split; [done|]. split; [apply handleProjectSave_elem | done].
    + by rewrite Hgen.
  - unfold handleLocalSave. destruct (DetailView.content st) as [content|]; [|done].
    exists (fst (buildProject p content (DetailView.groundingImages st) w)).
    destruct (buildProject_fields p content (DetailView.groundingImages st) w)
      as (Hnews & Hcontent & _).
    split; [|done].
    by destruct (buildProject p content (DetailView.groundingImages st) w).
Qed.
End DetailViewFacts.

(** Generation alone adds a project: from the empty collection, with no
    explicit save, one successful generation leaves one saved project. *)
Lemma handleGenerate_adds_project :
  ¬ (∀ (API_KEY : option string) p st (prev : list SavedProject.t) (w : Scripted.World),
       snd (fst (handleGenerate API_KEY handleProjectSave p st prev w)) = prev).
Proof.
  intros Hclaim.
  pose (p := {| DetailView.newsItem := Scripted.headline "news-1" "Summit ends";
                DetailView.existingProject := None |}).
  specialize (Hclaim (Some "key") p (initialDetailView p) []
                (Scripted.start
                   [Resolved (Scripted.textResponse (Scripted.kitText (Scripted.kit ["summit"])));
                    Resolved (Scripted.groundedResponse Scripted.manyChunks)])).
  vm_compute in Hclaim. discriminate Hclaim.
Qed.

(** * Further properties *)

(** ** Strings *)

Section StringFacts.
Lemma prefix_spec (sub s : string) :
  String.prefix sub s = true ↔ ∃ post, s = sub +:+ post.
Proof.
  revert s. induction sub as [|c sub IH]; intros s.
  - split; [intros _; by exists s | intros _; by destruct s].
  - destruct s as [|d s]; simpl.
    + split; [discriminate | intros [post Hpost]; discriminate].
    + destruct (ascii_dec c d) as [->|Hne].
      * rewrite IH. split; intros [post Hpost]; exists post.
        -- by rewrite Hpost.
        -- by injection Hpost.
      * split; [discriminate|]. intros [post Hpost]. injection Hpost as -> _. done.
Qed.

(** [includes] finds exactly the substrings. *)
Lemma includes_spec (s sub : string) :
  includes s sub = true ↔ ∃ pre post, s = pre +:+ sub +:+ post.
Proof.
  induction s as [|c s IH].
  - change (includes "" sub) with (String.prefix sub "" || false).
    rewrite orb_false_r, prefix_spec. split.
    + intros [post Hpost]. by exists "", post.
    + intros (pre & post & Hs). destruct pre; [|discriminate]. by exists post.
  - change (includes (String c s) sub) with (String.prefix sub (String c s) || includes s sub).
    rewrite orb_true_iff, prefix_spec, IH. split.
    + intros [[post Hpost] | (pre & post & Hs)].
      * by exists "", post.
      * exists (String c pre), post. by rewrite Hs.
    + intros (pre & post & Hs). destruct pre as [|d pre].
      * left. by exists post.
      * right. exists pre, post. by injection Hs.
Qed.
End StringFacts.

(** ** The retry wrapper, completely *)

Section RetryCharacterisation.
Context {W : Type} `{!Runtime W} {T : Type}.
Variable operation : Async W T.
Variable baseDelay : Z.

(** X2. An error is retried exactly when its message contains 429 or Too Many
    Requests somewhere, or its status or its response's status is 429. *)
Theorem isRateLimit_iff (error : JsError.t) :
  isRateLimit error = true
  ↔ (∃ m pre post, JsError.message error = Some m
        ∧ (m = pre +:+ "429" +:+ post ∨ m = pre +:+ "Too Many Requests" +:+ post))
    ∨ JsError.status error = Some 429%Z
    ∨ JsError.response_status error = Some 429%Z.
Proof.
  unfold isRateLimit. rewrite !orb_true_iff, !bool_decide_eq_true.
  destruct (JsError.message error) as [m|].
  - rewrite !includes_spec. split.
    + intros [[[(pre & post & Hm) | (pre & post & Hm)] | Hs] | Hr]; eauto 10.
    + intros [(m' & pre & post & [= <-] & [Hm | Hm]) | [Hs | Hr]]; eauto 10.
  - split.
    + intros [[[? | ?] | Hs] | Hr]; try discriminate; eauto.
    + intros [(m' & pre & post & ? & _) | [Hs | Hr]]; try discriminate; eauto.
Qed.

Lemma retryLoop_characterised retries remaining :
  ∀ i w,
    (0 < remaining)%nat → (i + remaining = retries)%nat →
    ∃ k wk,
      (i + k < retries)%nat
      ∧ RateLimited operation baseDelay i k w wk
      ∧ retryLoop operation retries baseDelay remaining i w = operation wk
      ∧ match fst (operation wk) with
        | Resolved _ => True
        | Rejected e => isRateLimit e = false ∨ (i + k = retries - 1)%nat
        end.
Proof.
  induction remaining as [|remaining IH]; intros i w Hpos Hsum; [lia|].
  simpl. destruct (operation w) as [[v | e] w1] eqn:Hop.
  - exists 0%nat, w. rewrite Hop. repeat split; [lia | constructor].
  - destruct (isRateLimit e) eqn:Hrl; simpl.
    + case_bool_decide as Hlast.
      * destruct (IH (S i) (backoff baseDelay i w1)) as (k & wk & Hk & Hrun & Hres & Hend);
          [lia | lia |].
        exists (S k), wk. split; [lia|]. split; [by econstructor|].
        split; [done|]. destruct (fst (operation wk)); [done|].
        destruct Hend as [? | ?]; [by left | right; lia].
      * exists 0%nat, w. rewrite Hop. simpl.
        repeat split; [lia | constructor | right; lia].
    + exists 0%nat, w. rewrite Hop. simpl. repeat split; [lia | constructor | by left].
Qed.

(** X1. The wrapper, for a retry count of at least one, returns the outcome and
    the world of one call of the operation: the first attempt that resolves,
    or is rejected with an error that is not a rate-limit error, or is the
    last attempt allowed; every attempt before it was rejected with a
    rate-limit error and followed by its wait. *)
Theorem retryOperation_characterised retries w :
  (0 < retries)%nat →
  ∃ k wk,
    (k < retries)%nat
    ∧ RateLimited operation baseDelay 0 k w wk
    ∧ retryOperation_with operation retries baseDelay w = operation wk
    ∧ match fst (operation wk) with
      | Resolved _ => True
      | Rejected e => isRateLimit e = false ∨ k = (retries - 1)%nat
      end.
Proof.
  intros Hpos. unfold retryOperation_with.
  destruct (retryLoop_characterised retries retries 0 w Hpos eq_refl)
    as (k & wk & Hk & Hrun & Hres & Hend).
  by exists k, wk.
Qed.
End RetryCharacterisation.

Lemma retryOperation_characterised_witness :
  let e := Scripted.tooManyRequests in
  let answer := Scripted.textResponse "ok" in
  let w := Scripted.start [Rejected e; Rejected e; Resolved answer] in
  (0 < 3)%nat
  ∧ ∃ k wk, (k < 3)%nat
      ∧ RateLimited Scripted.ping 2000 0 k w wk
      ∧ retryOperation Scripted.ping w = Scripted.ping wk.
Proof.
  intros e answer w. split; [lia|].
  destruct (retryOperation_characterised Scripted.ping 2000 3 w ltac:(lia))
    as (k & wk & Hk & Hrun & Hres & _).
  by exists k, wk.
Defined.

(** ** Content generation and news fetching *)

Section ServiceFacts.
Context {W : Type} `{!Runtime W}.
Variable API_KEY : option string.

(** X3. The kit generator rejects without an API key before anything is called;
    with a key it passes on, unchanged, the error the retried call ends
    with; a response without text, or with the empty text, is rejected as
    "No content generated"; a response with text resolves or rejects as the
    parser does on that text. *)
Theorem generateContentKit_outcomes newsItem (w : W) :
  (truthy (apiKey API_KEY) = false →
     generateContentKit API_KEY newsItem w
     = (Rejected (Error "API Key not found in environment variables"), w))
  ∧ (truthy (apiKey API_KEY) = true →
     (∀ e w', retryOperation (generateContent (kitRequest newsItem)) w = (Rejected e, w') →
        generateContentKit API_KEY newsItem w = (Rejected e, w'))
     ∧ (∀ response w',
          retryOperation (generateContent (kitRequest newsItem)) w = (Resolved response, w') →
          truthy_opt (Response.text response) = false →
          generateContentKit API_KEY newsItem w
          = (Rejected (Error "No content generated"), w'))
     ∧ (∀ response w' text,
          retryOperation (generateContent (kitRequest newsItem)) w = (Resolved response, w') →
          Response.text response = Some text → truthy text = true →
          generateContentKit API_KEY newsItem w = (JSON_parse_content text, w'))).
Proof.
  unfold generateContentKit, bind, of_outcome, getClient, try_catch, throw.
  split; [by intros ->|]. intros ->. simpl. repeat split.
  - by intros e w' ->.
  - intros response w' -> Htext. destruct (Response.text response) as [text|]; [|done].
    simpl in Htext. by rewrite Htext.
  - intros response w' text -> -> ->. by destruct (JSON_parse_content text).
Qed.

(** Every item gets an id of its own shape: "news-", a clock reading, a
    dash and the item's position in the batch. *)
Lemma addIds_lookup items :
  ∀ index (w : W) i item',
    fst (addIds items index w) !! i = Some item' →
    ∃ (now : Z) item, items !! i = Some item
      ∧ NewsItem.id item' = "news-" +:+ pretty now +:+ "-" +:+ pretty (index + i)%nat
      ∧ NewsItem.title item' = NewsItem.title item
      ∧ NewsItem.snippet item' = NewsItem.snippet item
      ∧ NewsItem.source item' = NewsItem.source item
      ∧ NewsItem.url item' = NewsItem.url item
      ∧ NewsItem.publishedDate item' = NewsItem.publishedDate item.
Proof.
  induction items as [|item items IH]; intros index w i item' Hlook; simpl in Hlook.
  - by rewrite lookup_nil in Hlook.
  - destruct (Date_now w) as [now w1].
    destruct (addIds items (S index) w1) as [rest w2] eqn:Hrest.
    simpl in Hlook. destruct i as [|i]; simpl in Hlook.
    + injection Hlook as <-. exists now, item. rewrite Nat.add_0_r. by repeat split.
    + pose proof (IH (S index) w1 i item') as Hi. rewrite Hrest in Hi.
      destruct (Hi Hlook) as (now' & it & Hit & Hid & Hfields).
      exists now', it. split; [done|]. split; [|done].
      rewrite Hid. by replace (S index + i)%nat with (index + S i)%nat by lia.
Qed.

Lemma addIds_length items : ∀ index (w : W), length (fst (addIds items index w)) = length items.
Proof.
  induction items as [|item items IH]; intros index w; simpl; [done|].
  destruct (Date_now w) as [now w1].
  pose proof (IH (S index) w1) as Hlen.
  destruct (addIds items (S index) w1) as [rest w2]. simpl in *. by rewrite Hlen.
Qed.

(** The fields other than the id are carried over, item by item. *)
Lemma addIds_fields items :
  ∀ index (w : W),
    NewsItem.title <$> fst (addIds items index w) = NewsItem.title <$> items
    ∧ NewsItem.snippet <$> fst (addIds items index w) = NewsItem.snippet <$> items
    ∧ NewsItem.source <$> fst (addIds items index w) = NewsItem.source <$> items
    ∧ NewsItem.url <$> fst (addIds items index w) = NewsItem.url <$> items
    ∧ NewsItem.publishedDate <$> fst (addIds items index w)
      = NewsItem.publishedDate <$> items.
Proof.
  induction items as [|item items IH]; intros index w; [done|].
  cbn [addIds]. destruct (Date_now w) as [now w1].
  destruct (IH (S index) w1) as (Ht & Hs & Hso & Hu & Hp).
  destruct (addIds items (S index) w1) as [rest w2]. cbn [fst] in *.
  rewrite !fmap_cons, Ht, Hs, Hso, Hu, Hp. done.
Qed.

(** Decimal numerals of natural numbers hold no dash. *)
Lemma pretty_N_go_no_dash (x : N) (s : string) :
  "-"%char ∉ String.list_ascii_of_string s → "-"%char ∉ String.list_ascii_of_string (pretty_N_go x s).
Proof.
  revert s. induction (N.lt_wf_0 x) as [x _ IH]; intros s Hs.
  assert (x = 0 ∨ 0 < x)%N as [->|Hpos] by lia.
  - by rewrite pretty_N_go_0.
  - rewrite pretty_N_go_step by done. apply IH; [by apply N.div_lt|].
    simpl. apply not_elem_of_cons. split; [|done].
    unfold pretty_N_char. by repeat case_match.
Qed.

Lemma pretty_nat_no_dash (n : nat) : "-"%char ∉ String.list_ascii_of_string (pretty n).
Proof.
  unfold pretty, pretty_nat, pretty, pretty_N. case_decide.
  - simpl. apply not_elem_of_cons. split; [done | apply not_elem_of_nil].
  - apply pretty_N_go_no_dash. apply not_elem_of_nil.
Qed.

Lemma dash_in_middle (a x : string) :
  "-"%char ∈ String.list_ascii_of_string (a +:+ String "-"%char x).
Proof.
  induction a as [|c a IH]; simpl; [left | by right].
Qed.

(** Two strings ending in a dash and a dash-free word are equal only when
    the words are. *)
Lemma dash_suffix_inj (a b x y : string) :
  a +:+ String "-"%char x = b +:+ String "-"%char y →
  "-"%char ∉ String.list_ascii_of_string x →
  "-"%char ∉ String.list_ascii_of_string y →
  x = y.
Proof.
  revert b. induction a as [|c a IH]; intros [|d b] Heq Hx Hy.
  - by injection Heq.
  - injection Heq as <- ->. destruct Hx. apply dash_in_middle.
  - injection Heq as -> <-. destruct Hy. apply dash_in_middle.
  - injection Heq as _ Heq. by apply (IH b).
Qed.

(** The ids given to a batch are pairwise distinct. *)
Lemma addIds_NoDup items index (w : W) :
  NoDup (NewsItem.id <$> fst (addIds items index w)).
Proof.
  apply NoDup_alt. intros i j id Hi Hj.
  rewrite list_lookup_fmap in Hi, Hj.
  destruct (fst (addIds items index w) !! i) as [a|] eqn:Ha; [|done].
  destruct (fst (addIds items index w) !! j) as [b|] eqn:Hb; [|done].
  simpl in Hi, Hj. injection Hi as Hi. injection Hj as Hj.
  destruct (addIds_lookup items index w i a Ha) as (ti & _ & _ & Hida & _).
  destruct (addIds_lookup items index w j b Hb) as (tj & _ & _ & Hidb & _).
  assert (Heq : ("news-" +:+ pretty ti) +:+ String "-"%char (pretty (index + i)%nat)
                = ("news-" +:+ pretty tj) +:+ String "-"%char (pretty (index + j)%nat)).
  { rewrite !JsonFacts.append_assoc.
    change (String "-"%char (pretty (index + i)%nat)) with ("-" +:+ pretty (index + i)%nat).
    change (String "-"%char (pretty (index + j)%nat)) with ("-" +:+ pretty (index + j)%nat).
    congruence. }
  apply dash_suffix_inj in Heq; [|apply pretty_nat_no_dash..].
  apply (inj pretty) in Heq. lia.
Qed.

(** X4. A news fetch rejects without an API key before anything is called, and
    passes on, unchanged, the error the retried call ends with and the error
    of the parser; a response without text, or with the empty text, is not an
    error: it resolves with no items. *)
Theorem fetchPoliticalNews_outcomes (w : W) :
  (truthy (apiKey API_KEY) = false →
     fetchPoliticalNews API_KEY w
     = (Rejected (Error "API Key not found in environment variables"), w))
  ∧ (truthy (apiKey API_KEY) = true →
     (∀ e w', retryOperation (generateContent newsRequest) w = (Rejected e, w') →
        fetchPoliticalNews API_KEY w = (Rejected e, w'))
     ∧ (∀ response w',
          retryOperation (generateContent newsRequest) w = (Resolved response, w') →
          truthy_opt (Response.text response) = false →
          fetchPoliticalNews API_KEY w = (Resolved [], w'))
     ∧ (∀ response w' text e,
          retryOperation (generateContent newsRequest) w = (Resolved response, w') →
          Response.text response = Some text → truthy text = true →
          JSON_parse_news text = Rejected e →
          fetchPoliticalNews API_KEY w = (Rejected e, w'))).
Proof.
  unfold fetchPoliticalNews, bind, of_outcome, getClient, try_catch, throw, ret, newsRequest.
  split; [by intros ->|]. intros ->. simpl. repeat split.
  - by intros e w' ->.
  - intros response w' -> Htext. destruct (Response.text response) as [text|]; [|done].
    simpl in Htext. by rewrite Htext.
  - by intros response w' text e -> -> -> ->.
Qed.

(** The id of the item at position [i] of a batch: "news-", a reading of
    the clock, a dash and the position. *)
Lemma addIds_ids items :
  ∀ index (w : W) i item',
    fst (addIds items index w) !! i = Some item' →
    ∃ wi : W,
      NewsItem.id item'
      = "news-" +:+ pretty (fst (Date_now wi)) +:+ "-" +:+ pretty (index + i)%nat.
Proof.
  induction items as [|item items IH]; intros index w i item' Hlook; simpl in Hlook.
  - by rewrite lookup_nil in Hlook.
  - destruct (Date_now w) as [now w1] eqn:Hnow.
    destruct (addIds items (S index) w1) as [rest w2] eqn:Hrest.
    simpl in Hlook. destruct i as [|i]; simpl in Hlook.
    + injection Hlook as <-. exists w. by rewrite Hnow, Nat.add_0_r.
    + pose proof (IH (S index) w1 i item') as Hi. rewrite Hrest in Hi.
      destruct (Hi Hlook) as (wi & Hid). exists wi.
      rewrite Hid. by replace (S index + i)%nat with (index + S i)%nat by lia.
Qed.

(** X5. The items of a fetched batch are the parsed items, in order and with
    every field but the id kept; the id of the item at position [i] is
    "news-", a reading of the clock, a dash and [i]; and the ids of the batch
    are pairwise distinct. *)
Theorem fetchPoliticalNews_items (w w' : W) response text parsed :
  truthy (apiKey API_KEY) = true →
  retryOperation (generateContent newsRequest) w = (Resolved response, w') →
  Response.text response = Some text → truthy text = true →
  JSON_parse_news text = Resolved parsed →
  ∃ items w'',
    fetchPoliticalNews API_KEY w = (Resolved items, w'')
    ∧ length items = length parsed
    ∧ NewsItem.title <$> items = NewsItem.title <$> parsed
    ∧ NewsItem.snippet <$> items = NewsItem.snippet <$> parsed
    ∧ NewsItem.source <$> items = NewsItem.source <$> parsed
    ∧ NewsItem.url <$> items = NewsItem.url <$> parsed
    ∧ NewsItem.publishedDate <$> items = NewsItem.publishedDate <$> parsed
    ∧ (∀ i item, items !! i = Some item →
         ∃ wi : W,
           NewsItem.id item = "news-" +:+ pretty (fst (Date_now wi)) +:+ "-" +:+ pretty i)
    ∧ NoDup (NewsItem.id <$> items).
Proof.
  intros Hkey Hcall Htext Htruthy Hparse.
  exists (fst (addIds parsed 0 w')), (snd (addIds parsed 0 w')).
  destruct (addIds_fields parsed 0 w') as (Ht & Hs & Hso & Hu & Hp).
  split; [|split; [apply addIds_length | repeat split; try done]].
  - unfold fetchPoliticalNews, bind, of_outcome, getClient, try_catch, lift.
    rewrite Hkey. simpl. fold newsRequest. rewrite Hcall, Htext, Htruthy, Hparse.
    by destruct (addIds parsed 0 w').
  - intros i item Hitem. exact (addIds_ids parsed 0 w' i item Hitem).
  - apply addIds_NoDup.
Qed.
End ServiceFacts.

(** ** Lists *)

Lemma filter_none {A} (P : A → Prop) `{!∀ x, Decision (P x)} (l : list A) :
  (∀ x, x ∈ l → ¬ P x) → filter P l = [].
Proof.
  intros Hnone. destruct (filter P l) as [|x rest] eqn:Hfilter; [done|].
  assert (Hx : x ∈ filter P l) by (rewrite Hfilter; constructor).
  apply list_elem_of_filter in Hx as [HP Hx]. by destruct (Hnone x Hx).
Qed.

Lemma filter_all {A} (P : A → Prop) `{!∀ x, Decision (P x)} (l : list A) :
  (∀ x, x ∈ l → P x) → filter P l = l.
Proof.
  induction l as [|x l IH]; intros Hall; [done|].
  rewrite filter_cons_True by (apply Hall; constructor).
  f_equal. apply IH. intros y Hy. apply Hall. by constructor.
Qed.

(** ** The news list, further *)

Section NewsFurther.
Context {W : Type} `{!Runtime W}.
Variable API_KEY : option string.
Implicit Types items prev : list NewsItem.t.

(** A batch whose titles are all on the list changes nothing. *)
Lemma mergeNews_all_seen items prev :
  (∀ item, item ∈ items → NewsItem.title item ∈ NewsItem.title <$> prev) →
  mergeNews items prev = prev.
Proof.
  intros Hseen. rewrite mergeNews_filter, filter_none; [done|].
  intros item Hitem Hfresh. by apply Hfresh, Hseen.
Qed.

(** After a merge the titles on the list are those that were on it and those
    of the batch. *)
Lemma mergeNews_titles items prev (t : string) :
  t ∈ NewsItem.title <$> mergeNews items prev
  ↔ t ∈ NewsItem.title <$> prev ∨ t ∈ NewsItem.title <$> items.
Proof.
  rewrite mergeNews_filter, fmap_app, elem_of_app. split.
  - intros [Hnew | Hold]; [|by left].
    apply list_elem_of_fmap in Hnew as (item & -> & Hitem).
    apply list_elem_of_filter in Hitem as [_ Hitem]. right. by apply list_elem_of_fmap_2.
  - intros [Hold | Hnew]; [by right|].
    destruct (decide (t ∈ NewsItem.title <$> prev)) as [Hin | Hnotin]; [by right|].
    left. apply list_elem_of_fmap in Hnew as (item & -> & Hitem).
    apply list_elem_of_fmap_2. by apply list_elem_of_filter.
Qed.

(** X8. Fetching the same batch again adds nothing, and after a merge every title
    of the batch is on the list. *)
Theorem mergeNews_refetch items prev :
  mergeNews items (mergeNews items prev) = mergeNews items prev
  ∧ (∀ item, item ∈ items →
       NewsItem.title item ∈ NewsItem.title <$> mergeNews items prev).
Proof.
  assert (Hall : ∀ item, item ∈ items →
            NewsItem.title item ∈ NewsItem.title <$> mergeNews items prev).
  { intros item Hitem. apply mergeNews_titles. right. by apply list_elem_of_fmap_2. }
  split; [by apply mergeNews_all_seen | done].
Qed.

(** X6. A news fetch either merges a batch into the list and clears the banner,
    or leaves the list as it was and shows one of the two messages; it ends
    the loading state and never touches the saved projects. *)
Theorem handleFetchNews_frame st (w : W) :
  App.savedProjects (fst (handleFetchNews API_KEY st w)) = App.savedProjects st
  ∧ App.loadingNews (fst (handleFetchNews API_KEY st w)) = false
  ∧ ((∃ items, fst (fetchPoliticalNews API_KEY w) = Resolved items
        ∧ App.news (fst (handleFetchNews API_KEY st w)) = mergeNews items (App.news st)
        ∧ App.errorMsg (fst (handleFetchNews API_KEY st w)) = None)
     ∨ (∃ e, fst (fetchPoliticalNews API_KEY w) = Rejected e
          ∧ App.news (fst (handleFetchNews API_KEY st w)) = App.news st
          ∧ (App.errorMsg (fst (handleFetchNews API_KEY st w))
             = Some "High traffic detected. The AI is busy. Please wait a minute and try again."
             ∨ App.errorMsg (fst (handleFetchNews API_KEY st w))
               = Some "Failed to load news. Please check your internet connection."))).
Proof.
  unfold handleFetchNews.
  destruct (fetchPoliticalNews API_KEY w) as [[items | e] w']; simpl.
  - split; [done|]. split; [done|]. left. by exists items.
  - split; [done|]. split; [done|]. right. exists e. split; [done|]. split; [done|].
    destruct (JsError.message e) as [m|]; [|by right].
    destruct (includes m "429" || includes m "Too Many Requests"); [by left | by right].
Qed.

(** X7. When the three attempts of a news fetch are used up, the first two on
    rate-limit errors, the error of the third reaches the banner: the news
    list and the saved projects are as before, and the banner reports high
    traffic exactly when that error's message holds 429 or Too Many Requests;
    an error marked as rate-limited by its status alone gets the connection
    message. *)
Theorem handleFetchNews_exhausted st (w wl w' : W) e :
  truthy (apiKey API_KEY) = true →
  RateLimited (generateContent newsRequest) 2000 0 2 w wl →
  generateContent newsRequest wl = (Rejected e, w') →
  handleFetchNews API_KEY st w
  = ({| App.news := App.news st;
        App.loadingNews := false;
        App.errorMsg :=
          Some (if match JsError.message e with
                   | Some m => includes m "429" || includes m "Too Many Requests"
                   | None => false
                   end
                then "High traffic detected. The AI is busy. Please wait a minute and try again."
                else "Failed to load news. Please check your internet connection.");
        App.savedProjects := App.savedProjects st |}, w').
Proof.
  intros Hkey Hrun Hlast.
  assert (Hretry : retryOperation (generateContent newsRequest) w = (Rejected e, w')).
  { unfold retryOperation, retryOperation_with.
    rewrite (retryLoop_rate_limited (generateContent newsRequest) 2000 3 2 0 1 w wl)
      by (done || lia).
    apply retryLoop_rejected; [done|].
    rewrite bool_decide_eq_false_2 by lia. apply andb_false_r. }
  unfold handleFetchNews, fetchPoliticalNews, bind, of_outcome, getClient, try_catch, throw.
  rewrite Hkey. simpl. fold newsRequest. by rewrite Hretry.
Qed.
End NewsFurther.

(** ** The saved-project collection, further *)

Section CollectionFurther.
Context {W : Type} `{!Runtime W}.
Implicit Types (prev json : list SavedProject.t) (project : SavedProject.t).

(** The test by which projects are looked up. *)
Lemma same_id_true (p q : SavedProject.t) :
  String.eqb (SavedProject.id p) (SavedProject.id q) = true
  ↔ SavedProject.id p = SavedProject.id q.
Proof. apply String.eqb_eq. Qed.

(** The position at which a project is saved: the first position holding its
    id, everything else staying in place, or the front when the id is new. *)
Lemma handleProjectSave_shape project prev :
  ((SavedProject.id project ∉ SavedProject.id <$> prev)
   ∧ handleProjectSave project prev = project :: prev)
  ∨ (∃ before old after,
       prev = before ++ old :: after
       ∧ SavedProject.id old = SavedProject.id project
       ∧ (SavedProject.id project ∉ SavedProject.id <$> before)
       ∧ handleProjectSave project prev = before ++ project :: after).
Proof.
  unfold handleProjectSave.
  destruct (findIndex_spec
              (fun p => String.eqb (SavedProject.id p) (SavedProject.id project)) prev)
    as [[Hnone Hall] | (k & old & Hidx & Hlook & Heq & Hbefore)].
  - left. rewrite Hnone, bool_decide_eq_false_2 by lia. split; [|done].
    intros Hin. apply list_elem_of_fmap in Hin as (q & Hid & Hq).
    rewrite Forall_forall in Hall. specialize (Hall q Hq).
    apply not_true_iff_false in Hall. apply Hall. by apply same_id_true.
  - right. rewrite Hidx, bool_decide_eq_true_2, Nat2Z.id by lia.
    exists (take k prev), old, (drop (S k) prev).
    split; [by rewrite take_drop_middle|]. split; [by apply same_id_true|]. split.
    + intros Hin. apply list_elem_of_fmap in Hin as (q & Hid & Hq).
      rewrite Forall_forall in Hbefore. specialize (Hbefore q Hq).
      apply not_true_iff_false in Hbefore. apply Hbefore. by apply same_id_true.
    + apply lookup_lt_Some in Hlook as Hlt.
      rewrite insert_take_drop by done. done.
Qed.

(** Looking up the id just saved finds the saved project. *)
Lemma handleProjectSave_find project prev :
  find (fun p => String.eqb (SavedProject.id p) (SavedProject.id project))
       (handleProjectSave project prev) = Some project.
Proof.
  destruct (handleProjectSave_shape project prev)
    as [[Hnew ->] | (before & old & after & -> & Hold & Hbefore & ->)].
  - simpl. by rewrite String.eqb_refl.
  - induction before as [|b before IH]; simpl.
    + by rewrite String.eqb_refl.
    + rewrite fmap_cons in Hbefore. apply not_elem_of_cons in Hbefore as [Hb Hbefore].
      destruct (String.eqb (SavedProject.id b) (SavedProject.id project)) eqn:Heq.
      * apply same_id_true in Heq. congruence.
      * by apply IH.
Qed.

(** X9. Looking up the id just saved finds the saved project; every project with
    another id is in the collection after the save exactly when it was
    before; the collection grows by one when the id is new and keeps its
    length otherwise. *)
Theorem handleProjectSave_lookup project prev :
  find (fun p => String.eqb (SavedProject.id p) (SavedProject.id project))
       (handleProjectSave project prev) = Some project
  ∧ (∀ q, SavedProject.id q ≠ SavedProject.id project →
       (q ∈ handleProjectSave project prev ↔ q ∈ prev))
  ∧ length (handleProjectSave project prev)
    = (if bool_decide (SavedProject.id project ∈ SavedProject.id <$> prev)
       then length prev else S (length prev)).
Proof.
  split; [apply handleProjectSave_find|].
  destruct (handleProjectSave_shape project prev)
    as [[Hnew ->] | (before & old & after & -> & Hold & Hbefore & ->)].
  - split.
    + intros q Hq. rewrite elem_of_cons. split; [|by right].
      intros [-> | Hin]; [done | done].
    + by rewrite bool_decide_eq_false_2.
  - split.
    + intros q Hq. rewrite !elem_of_app, !elem_of_cons.
      split; (intros [? | [-> | ?]]; [by left | congruence | by right; right]).
    + rewrite bool_decide_eq_true_2.
      * by rewrite !length_app.
      * rewrite fmap_app, fmap_cons, Hold. apply elem_of_app. right. constructor.
Qed.

(** X10. Saving twice under one id leaves what saving the second version alone
    leaves. *)
Theorem handleProjectSave_last_wins (first second : SavedProject.t) prev :
  SavedProject.id first = SavedProject.id second →
  handleProjectSave second (handleProjectSave first prev) = handleProjectSave second prev.
Proof.
  intros Hid.
  destruct (handleProjectSave_shape first prev)
    as [[Hnew ->] | (before & old & after & -> & Hold & Hbefore & ->)].
  - rewrite (handleProjectSave_new second prev) by (by rewrite <- Hid).
    destruct (handleProjectSave_shape second (first :: prev))
      as [[Hnew' _] | (before & old & after & Hsplit & Hold & Hbefore & ->)].
    + destruct Hnew'. rewrite fmap_cons, Hid. constructor.
    + destruct before as [|b before].
      * by injection Hsplit as _ <-.
      * injection Hsplit as <- _. destruct Hbefore. rewrite fmap_cons, Hid. constructor.
  - assert (Hsave : ∀ x, SavedProject.id x = SavedProject.id second →
              handleProjectSave second (before ++ x :: after) = before ++ second :: after).
    { intros x Hx.
      destruct (handleProjectSave_shape second (before ++ x :: after))
        as [[Hnew _] | (before' & old' & after' & Hsplit & Hold' & Hbefore' & ->)].
      - destruct Hnew. rewrite fmap_app, fmap_cons, Hx. apply elem_of_app. right. constructor.
      - assert (Hlen : length before' = length before).
        { destruct (Nat.lt_trichotomy (length before') (length before)) as [Hlt | [? | Hgt]];
            [|done|].
          - exfalso. apply Hbefore.
            assert (Hk : (before ++ x :: after) !! length before' = Some old')
              by (rewrite Hsplit; by apply list_lookup_middle).
            rewrite lookup_app_l in Hk by done.
            rewrite Hid, <- Hold'. apply list_elem_of_fmap_2. by eapply list_elem_of_lookup_2.
          - exfalso. apply Hbefore'. rewrite <- Hx.
            assert (Hk : (before' ++ old' :: after') !! length before = Some x)
              by (rewrite <- Hsplit; by apply list_lookup_middle).
            rewrite lookup_app_l in Hk by done.
            apply list_elem_of_fmap_2. by eapply list_elem_of_lookup_2. }
        apply app_inj_1 in Hsplit as [-> Htail]; [|done]. by injection Htail as _ <-. }
    rewrite (Hsave first Hid). apply eq_sym, Hsave. congruence.
Qed.

(** X11. Deleting removes every project with the given id and no other project,
    keeping the order of the rest; declining the dialog changes nothing, and
    so does deleting an id that is not in the collection. *)
Theorem deleteProject_removes id prev :
  (id ∉ SavedProject.id <$> deleteProject id true prev)
  ∧ (∀ q, q ∈ deleteProject id true prev ↔ (q ∈ prev ∧ SavedProject.id q ≠ id))
  ∧ deleteProject id true prev `sublist_of` prev
  ∧ deleteProject id false prev = prev
  ∧ (id ∉ SavedProject.id <$> prev → deleteProject id true prev = prev).
Proof.
  unfold deleteProject. split; [|split; [|split; [|split]]].
  - intros Hin. apply list_elem_of_fmap in Hin as (q & -> & Hq).
    by apply list_elem_of_filter in Hq as [Hne _].
  - intros q. rewrite list_elem_of_filter. tauto.
  - apply sublist_filter.
  - done.
  - intros Habsent. apply filter_all. intros q Hq Heq. apply Habsent.
    rewrite <- Heq. by apply list_elem_of_fmap_2.
Qed.

(** X12. Saving a project and then deleting its id leaves what deleting the id
    alone leaves. *)
Theorem deleteProject_after_save project prev :
  deleteProject (SavedProject.id project) true (handleProjectSave project prev)
  = deleteProject (SavedProject.id project) true prev.
Proof.
  unfold deleteProject.
  destruct (handleProjectSave_shape project prev)
    as [[Hnew ->] | (before & old & after & -> & Hold & Hbefore & ->)].
  - by rewrite filter_cons_False by (intros Hne; by apply Hne).
  - rewrite !filter_app, !filter_cons_False; [done | | ]; intros Hne; by apply Hne.
Qed.

(** An array whose ids are all in the collection adds nothing. *)
Lemma mergeImported_all_present json prev :
  (∀ j, j ∈ json → SavedProject.id j ∈ SavedProject.id <$> prev) →
  mergeImported json prev = prev.
Proof.
  intros Hpresent. rewrite mergeImported_filter, filter_none; [done|].
  intros j Hj Hfresh. by apply Hfresh, Hpresent.
Qed.

Lemma mergeImported_ids json prev (id : string) :
  id ∈ SavedProject.id <$> mergeImported json prev
  ↔ id ∈ SavedProject.id <$> prev ∨ id ∈ SavedProject.id <$> json.
Proof.
  rewrite mergeImported_filter, fmap_app, elem_of_app. split.
  - intros [Hnew | Hold]; [|by left].
    apply list_elem_of_fmap in Hnew as (j & -> & Hj).
    apply list_elem_of_filter in Hj as [_ Hj]. right. by apply list_elem_of_fmap_2.
  - intros [Hold | Hnew]; [by right|].
    destruct (decide (id ∈ SavedProject.id <$> prev)) as [Hin | Hnotin]; [by right|].
    left. apply list_elem_of_fmap in Hnew as (j & -> & Hj).
    apply list_elem_of_fmap_2. by apply list_elem_of_filter.
Qed.

(** X13. Importing a file whose ids are all in the collection changes nothing,
    yet the alert reports the number of projects in the file; in particular a
    file imported a second time adds nothing. *)
Theorem handleGlobalImport_again text json prev :
  JSON_parse text = Resolved (JsonArray json) →
  ((∀ j, j ∈ json → SavedProject.id j ∈ SavedProject.id <$> prev) →
     handleGlobalImport (Some text) prev
     = (prev, Some ("Imported " +:+ pretty (length json) +:+ " projects.")))
  ∧ handleGlobalImport (Some text) (fst (handleGlobalImport (Some text) prev))
    = (fst (handleGlobalImport (Some text) prev),
       Some ("Imported " +:+ pretty (length json) +:+ " projects.")).
Proof.
  intros Hparse. unfold handleGlobalImport. rewrite Hparse. simpl. split.
  - intros Hpresent. by rewrite mergeImported_all_present.
  - rewrite mergeImported_all_present; [done|].
    intros j Hj. apply mergeImported_ids. right. by apply list_elem_of_fmap_2.
Qed.

(** X14. Importing into the empty collection yields the array of the file as it
    is, in file order; and with no file chosen nothing happens and nothing is
    shown. *)
Theorem handleGlobalImport_into_empty text json prev :
  JSON_parse text = Resolved (JsonArray json) →
  fst (handleGlobalImport (Some text) []) = json
  ∧ handleGlobalImport None prev = (prev, None).
Proof.
  intros Hparse. unfold handleGlobalImport. rewrite Hparse. simpl. split; [|done].
  rewrite mergeImported_filter, app_nil_r. apply filter_all.
  intros j _. apply not_elem_of_nil.
Qed.
End CollectionFurther.

(** ** Persistence, further *)

Section PersistenceFurther.
Context {W : Type} `{!Runtime W}.

(** X15. At start-up, a missing entry and an entry holding the empty string both
    give the empty collection, and a stored text that does not parse makes
    the initialisation fail with the parser's error. *)
Theorem initialSavedProjects_edges (localStorage : gmap string string) :
  (localStorage !! policast_saved = None ∨ localStorage !! policast_saved = Some "" →
     initialSavedProjects localStorage = Resolved (JsonArray []))
  ∧ (∀ text e,
       localStorage !! policast_saved = Some text → truthy text = true →
       JSON_parse text = Rejected e →
       initialSavedProjects localStorage = Rejected e).
Proof.
  unfold initialSavedProjects. split.
  - by intros [-> | ->].
  - by intros text e -> -> ->.
Qed.

(** X16. Only the last write counts: after the collection was written several
    times, the storage is what one write of the last collection gives, and a
    reload parses that collection's text. *)
Theorem syncSavedProjects_last_write (earlier : list (list SavedProject.t))
    (last : list SavedProject.t) (localStorage : gmap string string) :
  truthy (JSON_stringify last) = true →
  syncSavedProjects last (foldl (fun ls ps => syncSavedProjects ps ls) localStorage earlier)
  = syncSavedProjects last localStorage
  ∧ initialSavedProjects
      (syncSavedProjects last (foldl (fun ls ps => syncSavedProjects ps ls) localStorage earlier))
    = JSON_parse (JSON_stringify last).
Proof.
  intros Htext.
  assert (Hlast : syncSavedProjects last
                    (foldl (fun ls ps => syncSavedProjects ps ls) localStorage earlier)
                  = syncSavedProjects last localStorage).
  { revert localStorage. induction earlier as [|ps earlier IH]; intros localStorage; [done|].
    simpl. rewrite IH. unfold syncSavedProjects. apply insert_insert_eq. }
  split; [done|]. rewrite Hlast. by apply initialSavedProjects_sync.
Qed.
End PersistenceFurther.

(** ** Image search, further *)

Section ImagesFurther.
Implicit Types (chunks : list GroundingChunk.t) (image : GroundingImage.t).

Lemma chunkImage_Some chunk image :
  chunkImage chunk = Some image →
  ∃ web, GroundingChunk.web chunk = Some web
    ∧ WebChunk.uri web = Some (GroundingImage.url image)
    ∧ truthy (GroundingImage.url image) = true
    ∧ GroundingImage.title image = or_else (WebChunk.title web) "Source Link"
    ∧ GroundingImage.source image = or_else (WebChunk.title web) "Web Result"
    ∧ (isImageUri (GroundingImage.url image) = true ∨ truthy_opt (WebChunk.title web) = true).
Proof.
  unfold chunkImage. destruct (GroundingChunk.web chunk) as [web|]; [|done].
  destruct (WebChunk.uri web) as [uri|] eqn:Huri; [|done].
  destruct (truthy uri) eqn:Htruthy; [|done]. simpl.
  destruct (isImageUri uri || truthy_opt (WebChunk.title web)) eqn:Htest; [|done].
  intros [= <-]. exists web. simpl. repeat split; try done.
  by apply orb_true_iff.
Qed.

Lemma or_else_truthy (o : option string) (fallback : string) :
  truthy fallback = true → truthy (or_else o fallback) = true.
Proof.
  intros Hfallback. unfold or_else. destruct o as [s|]; [|done].
  by destruct (truthy s) eqn:Hs.
Qed.

Lemma filter_from_sublist {A} (f : A → Z → list A → bool) (whole a : list A) i :
  filter_from f whole a i `sublist_of` a.
Proof.
  revert i. induction a as [|x a IH]; intros i; simpl; [done|].
  destruct (f x i whole); [by apply sublist_skip | by apply sublist_cons].
Qed.

(** X17. The images of a response are some of the links of its chunks, in the
    chunks' order: each has the non-empty url of a chunk; its title and its
    source are both that chunk's title when the chunk has a non-empty one,
    and are Source Link and Web Result otherwise, so neither is ever empty. *)
Theorem imagesOfResponse_well_formed response :
  imagesOfResponse response
    `sublist_of` collectImages (default [] (groundingChunksOf response))
  ∧ ∀ image, image ∈ imagesOfResponse response →
      truthy (GroundingImage.url image) = true
      ∧ truthy (GroundingImage.title image) = true
      ∧ truthy (GroundingImage.source image) = true
      ∧ ∃ chunks chunk web,
          groundingChunksOf response = Some chunks ∧ chunk ∈ chunks
          ∧ GroundingChunk.web chunk = Some web
          ∧ WebChunk.uri web = Some (GroundingImage.url image)
          ∧ (truthy_opt (WebChunk.title web) = true →
               WebChunk.title web = Some (GroundingImage.title image)
               ∧ WebChunk.title web = Some (GroundingImage.source image))
          ∧ (truthy_opt (WebChunk.title web) = false →
               GroundingImage.title image = "Source Link"
               ∧ GroundingImage.source image = "Web Result").
Proof.
  unfold imagesOfResponse, slice0, uniqueImages, filter_indexed.
  destruct (groundingChunksOf response) as [chunks|]; simpl.
  - assert (Hsub : take 10 (filter_from firstWithUrl (collectImages chunks)
                              (collectImages chunks) 0) `sublist_of` collectImages chunks).
    { etrans; [apply sublist_take | apply filter_from_sublist]. }
    split; [done|].
    intros image Himage.
    assert (Hin : image ∈ collectImages chunks) by (by apply (sublist_subseteq _ _ Hsub)).
    unfold collectImages in Hin. apply list_elem_of_omap in Hin as (chunk & Hchunk & Himg).
    destruct (chunkImage_Some chunk image Himg) as (web & Hweb & Huri & Hurl & Htitle & Hsource & _).
    split; [done|]. split; [rewrite Htitle; by apply or_else_truthy|].
    split; [rewrite Hsource; by apply or_else_truthy|].
    exists chunks, chunk, web. split; [done|]. split; [done|]. split; [done|].
    split; [done|]. rewrite Htitle, Hsource. unfold or_else, truthy_opt.
    destruct (WebChunk.title web) as [t|]; [|by split].
    split; intros Ht; by rewrite Ht.
  - split; [done|]. intros image Himage. by apply elem_of_nil in Himage.
Qed.
End ImagesFurther.

(** ** Generating and saving, further *)

Section DetailViewFurther.
Context {W : Type} `{!Runtime W}.
Variable API_KEY : option string.

(** The id under which a view saves: the id of the project it was opened
    from, when that is not empty, and otherwise "proj-" and the clock. *)
Lemma buildProject_id p content images (w : W) :
  SavedProject.id (fst (buildProject p content images w)) = fst (projectId p w).
Proof.
  unfold buildProject. destruct (projectId p w) as [id w1].
  by destruct (Date_now w1) as [now w2].
Qed.

Lemma projectId_existing p existing (w : W) :
  DetailView.existingProject p = Some existing →
  truthy (SavedProject.id existing) = true →
  projectId p w = (SavedProject.id existing, w).
Proof. intros Hexisting Hid. unfold projectId. by rewrite Hexisting, Hid. Qed.

Lemma projectId_fresh p (w : W) :
  DetailView.existingProject p = None →
  projectId p w = ("proj-" +:+ pretty (fst (Date_now w)), snd (Date_now w)).
Proof. intros Hnone. unfold projectId. rewrite Hnone. by destruct (Date_now w). Qed.

(** X18. Generation fails as a whole or not at all.  When the kit cannot be
    generated, the content and images on screen and the parent's state stay
    as they were and the error message is shown.  When the kit is generated,
    a failing image search does not fail the generation: the kit is shown and
    saved with no images; and a kit without image queries is saved without
    any search being made. *)
Theorem handleGenerate_outcomes {P : Type} (onSave : SavedProject.t → P → P)
    p st (parent : P) (w : W) :
  (∀ e w1, generateContentKit API_KEY (DetailView.newsItem p) w = (Rejected e, w1) →
     handleGenerate API_KEY onSave p st parent w
     = ({| DetailView.loading := false;
           DetailView.content := DetailView.content st;
           DetailView.groundingImages := DetailView.groundingImages st;
           DetailView.error := Some "Failed to generate content. Please try again." |},
        parent, w1))
  ∧ (∀ generated w1 e w2,
       generateContentKit API_KEY (DetailView.newsItem p) w = (Resolved generated, w1) →
       GeneratedContent.imageQueries generated ≠ [] →
       retryOperation
         (generateContent (imageSearchRequest (GeneratedContent.imageQueries generated))) w1
       = (Rejected e, w2) →
       handleGenerate API_KEY onSave p st parent w
       = ({| DetailView.loading := false;
             DetailView.content := Some generated;
             DetailView.groundingImages := [];
             DetailView.error := None |},
          onSave (fst (buildProject p generated [] w2)) parent,
          snd (buildProject p generated [] w2)))
  ∧ (∀ generated w1,
       generateContentKit API_KEY (DetailView.newsItem p) w = (Resolved generated, w1) →
       GeneratedContent.imageQueries generated = [] →
       handleGenerate API_KEY onSave p st parent w
       = ({| DetailView.loading := false;
             DetailView.content := Some generated;
             DetailView.groundingImages := [];
             DetailView.error := None |},
          onSave (fst (buildProject p generated [] w1)) parent,
          snd (buildProject p generated [] w1))).
Proof.
  unfold handleGenerate. split; [|split].
  - by intros e w1 ->.
  - intros generated w1 e w2 Hkit Hqueries Hsearch. rewrite Hkit.
    apply generateContentKit_needs_key in Hkit.
    destruct (GeneratedContent.imageQueries generated) as [|q queries]; [done|].
    rewrite searchRelatedImages_with_key, Hsearch by done.
    by destruct (buildProject p generated [] w2).
  - intros generated w1 Hkit Hqueries. rewrite Hkit, Hqueries. unfold ret.
    by destruct (buildProject p generated [] w1).
Qed.

(** X19. A view opened from a saved project saves under that project's id: the
    explicit save replaces the project in place, so the ids of the
    collection, and with them its length, are as before, and looking up the
    id finds the new version with the content on screen. *)
Theorem handleLocalSave_in_place p st existing content (prev : list SavedProject.t) (w : W) :
  DetailView.existingProject p = Some existing →
  truthy (SavedProject.id existing) = true →
  SavedProject.id existing ∈ SavedProject.id <$> prev →
  DetailView.content st = Some content →
  let after := fst (handleLocalSave handleProjectSave p st prev w) in
  SavedProject.id <$> after = SavedProject.id <$> prev
  ∧ ∃ saved,
      find (fun q => String.eqb (SavedProject.id q) (SavedProject.id existing)) after
      = Some saved
      ∧ SavedProject.id saved = SavedProject.id existing
      ∧ SavedProject.newsItem saved = DetailView.newsItem p
      ∧ SavedProject.generatedContent saved = Some content
      ∧ SavedProject.groundingImages saved = DetailView.groundingImages st.
Proof.
  intros Hexisting Hid Hin Hcontent after. subst after.
  unfold handleLocalSave. rewrite Hcontent.
  pose proof (buildProject_id p content (DetailView.groundingImages st) w) as Hbuilt.
  rewrite (projectId_existing p existing w Hexisting Hid) in Hbuilt. simpl in Hbuilt.
  destruct (buildProject_fields p content (DetailView.groundingImages st) w)
    as (Hnews & Hgen & Himages).
  destruct (buildProject p content (DetailView.groundingImages st) w) as [project w'].
  simpl in *. split.
  - rewrite handleProjectSave_ids, bool_decide_eq_true_2; [done | by rewrite Hbuilt].
  - exists project. rewrite <- Hbuilt. split; [apply handleProjectSave_find | done].
Qed.

(** X20. A view opened from a headline has no project to replace: each explicit
    save takes a new id from the clock.  Saving twice, the clock giving two
    readings and neither id being in the collection yet, leaves two projects
    for the one news item. *)
Theorem handleLocalSave_twice p st content (prev : list SavedProject.t) (w : W) :
  DetailView.existingProject p = None →
  DetailView.content st = Some content →
  let once := handleLocalSave handleProjectSave p st prev w in
  let twice := handleLocalSave handleProjectSave p st (fst once) (snd once) in
  fst (Date_now w) ≠ fst (Date_now (snd once)) →
  "proj-" +:+ pretty (fst (Date_now w)) ∉ SavedProject.id <$> prev →
  "proj-" +:+ pretty (fst (Date_now (snd once))) ∉ SavedProject.id <$> prev →
  ∃ first second,
    fst twice = second :: first :: prev
    ∧ SavedProject.id first = "proj-" +:+ pretty (fst (Date_now w))
    ∧ SavedProject.id second = "proj-" +:+ pretty (fst (Date_now (snd once)))
    ∧ SavedProject.id first ≠ SavedProject.id second
    ∧ SavedProject.newsItem first = DetailView.newsItem p
    ∧ SavedProject.newsItem second = DetailView.newsItem p.
Proof.
  intros Hnone Hcontent once twice Hclock Hfirst Hsecond. subst once twice.
  unfold handleLocalSave in *. rewrite Hcontent in *.
  pose proof (buildProject_id p content (DetailView.groundingImages st) w) as Hid1.
  rewrite (projectId_fresh p w Hnone) in Hid1. simpl in Hid1.
  destruct (buildProject_fields p content (DetailView.groundingImages st) w) as (Hnews1 & _).
  destruct (buildProject p content (DetailView.groundingImages st) w) as [first w1].
  simpl in *.
  pose proof (buildProject_id p content (DetailView.groundingImages st) w1) as Hid2.
  rewrite (projectId_fresh p w1 Hnone) in Hid2. simpl in Hid2.
  destruct (buildProject_fields p content (DetailView.groundingImages st) w1) as (Hnews2 & _).
  destruct (buildProject p content (DetailView.groundingImages st) w1) as [second w2].
  simpl in *.
  assert (Hdiff : SavedProject.id first ≠ SavedProject.id second).
  { rewrite Hid1, Hid2. intros Heq. apply Hclock.
    apply (inj (String.append "proj-")) in Heq. by apply (inj pretty) in Heq. }
  exists first, second.
  rewrite (handleProjectSave_new first prev) by (by rewrite Hid1).
  rewrite (handleProjectSave_new second (first :: prev)).
  - done.
  - rewrite fmap_cons. apply not_elem_of_cons. split; [congruence | by rewrite Hid2].
Qed.
End DetailViewFurther.

(** ** Navigation *)

Section NavFacts.
Implicit Types (st : Nav.t) (news : list NewsItem.t) (savedProjects : list SavedProject.t).

Lemma coherent_shows st :
  coherent st →
  (showsDiscover st = true ∧ showsSaved st = false ∧ showsDetail st = false)
  ∨ (showsDiscover st = false ∧ showsSaved st = true ∧ showsDetail st = false)
  ∨ (showsDiscover st = false ∧ showsSaved st = false ∧ showsDetail st = true).
Proof.
  unfold coherent, showsDiscover, showsSaved, showsDetail.
  destruct st as [[] item proj]; simpl.
  - intros [-> ->]. by left.
  - intros [Hitem _]. right. right. by rewrite (bool_decide_eq_true_2 _ Hitem).
  - intros [-> ->]. right. by left.
Qed.

Lemma click_coherent news savedProjects c st :
  coherent st → coherent (click news savedProjects c st).
Proof.
  intros Hst. destruct c; simpl; try done.
  - destruct (showsDiscover st); [|done]. destruct (news !! k); [|done].
    split; [done | by intros proj].
  - destruct (showsSaved st); [|done]. destruct (savedProjects !! k) as [proj|]; [|done].
    split; [done | by intros proj' [= ->]].
  - destruct (showsSaved st && bool_decide (savedProjects = [])) eqn:Hshown; [|done].
    apply andb_true_iff in Hshown as [Hshown _].
    unfold showsSaved in Hshown. apply andb_true_iff in Hshown as [Hview Hproj].
    apply bool_decide_eq_true in Hview, Hproj.
    unfold coherent in *. rewrite Hview in Hst. destruct Hst as [Hitem _].
    unfold goDiscover. simpl. by rewrite Hitem, Hproj.
  - destruct (showsDetail st); [|done]. unfold onBack.
    by destruct (Nav.selectedSavedProject st).
Qed.

Lemma clicks_coherent session : coherent (clicks session).
Proof.
  unfold clicks.
  assert (Hgen : ∀ st, coherent st →
            coherent (foldl (fun st '(news, savedProjects, c) => click news savedProjects c st)
                            st session)).
  { induction session as [|[[news savedProjects] c] session IH]; intros st Hst; [done|].
    simpl. by apply IH, click_coherent. }
  apply Hgen. by split.
Qed.

(** X21. Whatever the user clicks, and however the news list and the library
    change in between, the page shows exactly one of its three views, and a
    selected project is always shown with its own news item. *)
Theorem clicks_one_view session :
  ((showsDiscover (clicks session) = true ∧ showsSaved (clicks session) = false
    ∧ showsDetail (clicks session) = false)
   ∨ (showsDiscover (clicks session) = false ∧ showsSaved (clicks session) = true
      ∧ showsDetail (clicks session) = false)
   ∨ (showsDiscover (clicks session) = false ∧ showsSaved (clicks session) = false
      ∧ showsDetail (clicks session) = true))
  ∧ (∀ proj, Nav.selectedSavedProject (clicks session) = Some proj →
       showsDetail (clicks session) = true
       ∧ Nav.selectedItem (clicks session) = Some (SavedProject.newsItem proj)).
Proof.
  pose proof (clicks_coherent session) as Hst. split; [by apply coherent_shows|].
  intros proj Hproj. unfold coherent, showsDetail in *.
  destruct (Nav.view (clicks session)); try (destruct Hst as [_ Hnone]; congruence).
  destruct Hst as [Hitem Hsame]. split; [|by apply Hsame].
  by rewrite (bool_decide_eq_true_2 _ Hitem).
Qed.

(** X22. The back arrow leads to where the detail view was opened from: to the
    headline list after a news card, to the library after a library row. *)
Theorem onBack_returns st news savedProjects news' savedProjects' (k : nat) :
  (∀ item, showsDiscover st = true → news !! k = Some item →
     let opened := click news savedProjects (ClickNewsCard k) st in
     showsDetail opened = true
     ∧ Nav.selectedItem opened = Some item
     ∧ showsDiscover (click news' savedProjects' ClickBack opened) = true)
  ∧ (∀ proj, showsSaved st = true → savedProjects !! k = Some proj →
       let opened := click news savedProjects (ClickProjectRow k) st in
       showsDetail opened = true
       ∧ Nav.selectedItem opened = Some (SavedProject.newsItem proj)
       ∧ Nav.selectedSavedProject opened = Some proj
       ∧ showsSaved (click news' savedProjects' ClickBack opened) = true).
Proof.
  split.
  - intros item Hshown Hitem. simpl. by rewrite Hshown, Hitem.
  - intros proj Hshown Hproj. simpl. by rewrite Hshown, Hproj.
Qed.
End NavFacts.

Lemma onBack_returns_witness :
  let a := Scripted.headline "news-1" "A" in
  let proj := Scripted.project "proj-1" a in
  showsDiscover initialNav = true
  ∧ [a] !! 0%nat = Some a
  ∧ showsDiscover (click [] [] ClickBack (click [a] [] (ClickNewsCard 0) initialNav)) = true
  ∧ showsSaved (goSaved initialNav) = true
  ∧ [proj] !! 0%nat = Some proj
  ∧ showsSaved (click [] [] ClickBack (click [] [proj] (ClickProjectRow 0) (goSaved initialNav)))
    = true.
Proof.
  intros a proj. split; [reflexivity|]. split; [reflexivity|]. split.
  - exact (proj2 (proj2 (proj1 (onBack_returns initialNav [a] [] [] [] 0) a eq_refl eq_refl))).
  - split; [reflexivity|]. split; [reflexivity|].
    exact (proj2 (proj2 (proj2 (proj2 (onBack_returns (goSaved initialNav) [] [proj] [] [] 0)
                                        proj eq_refl eq_refl)))).
Defined.

(** ** The resizable panes *)

Section PanesFacts.
Context {number : Type} `{!Arith number}.

Lemma mouse_bounds (ev : MouseEvent) (st : Panes.t number) :
  ltb (of_Z 20) (Panes.leftWidth st) = true ∧ ltb (Panes.leftWidth st) (of_Z 80) = true
  ∧ (200 ≤ Panes.scriptHeight st ≤ 1000)%Z →
  ltb (of_Z 20) (Panes.leftWidth (mouse ev st)) = true
  ∧ ltb (Panes.leftWidth (mouse ev st)) (of_Z 80) = true
  ∧ (200 ≤ Panes.scriptHeight (mouse ev st) ≤ 1000)%Z.
Proof.
  intros (Hlow & Hhigh & Hheight). destruct ev as [| | e |]; simpl; try done.
  split; [|split].
  - destruct (Panes.isDraggingHorz st); [|done].
    destruct (Panes.container e) as [[rectLeft rectWidth]|]; [|done].
    destruct (ltb (of_Z 20) (newLeftWidth e rectLeft rectWidth)
              && ltb (newLeftWidth e rectLeft rectWidth) (of_Z 80)) eqn:Hin; [|done].
    by apply andb_true_iff in Hin as [? _].
  - destruct (Panes.isDraggingHorz st); [|done].
    destruct (Panes.container e) as [[rectLeft rectWidth]|]; [|done].
    destruct (ltb (of_Z 20) (newLeftWidth e rectLeft rectWidth)
              && ltb (newLeftWidth e rectLeft rectWidth) (of_Z 80)) eqn:Hin; [|done].
    by apply andb_true_iff in Hin as [_ ?].
  - destruct (Panes.isDraggingVert st); lia.
Qed.

(** X23. Whatever the mouse does, the left pane stays strictly between 20 and 80
    percent wide (in the comparison of the arithmetic, in which 60 has to lie
    between them) and the script pane between 200 and 1000 pixels high. *)
Theorem mouseSession_bounds (events : list MouseEvent) :
  ltb (of_Z 20) (of_Z 60) = true →
  ltb (of_Z 60) (of_Z 80) = true →
  ltb (of_Z 20) (Panes.leftWidth (mouseSession events)) = true
  ∧ ltb (Panes.leftWidth (mouseSession events)) (of_Z 80) = true
  ∧ (200 ≤ Panes.scriptHeight (mouseSession events) ≤ 1000)%Z.
Proof.
  intros Hlow Hhigh. unfold mouseSession.
  assert (Hgen : ∀ st : Panes.t number,
            ltb (of_Z 20) (Panes.leftWidth st) = true ∧ ltb (Panes.leftWidth st) (of_Z 80) = true
            ∧ (200 ≤ Panes.scriptHeight st ≤ 1000)%Z →
            ltb (of_Z 20) (Panes.leftWidth (foldl (fun st ev => mouse ev st) st events)) = true
            ∧ ltb (Panes.leftWidth (foldl (fun st ev => mouse ev st) st events)) (of_Z 80) = true
            ∧ (200 ≤ Panes.scriptHeight (foldl (fun st ev => mouse ev st) st events) ≤ 1000)%Z).
  { induction events as [|ev events IH]; intros st Hst; [done|].
    simpl. by apply IH, mouse_bounds. }
  apply Hgen. simpl. repeat split; (done || lia).
Qed.

(** X24. Once the button is released, moving the mouse resizes nothing, however
    often it moves. *)
Theorem handleMouseMove_released (st : Panes.t number) (moves : list (Panes.move number)) :
  foldl (fun st e => handleMouseMove e st) (handleMouseUp st) moves = handleMouseUp st.
Proof.
  induction moves as [|e moves IH]; [done|]. simpl. exact IH.
Qed.
End PanesFacts.

Lemma mouseSession_bounds_witness :
  let far := {| Panes.clientX := QArith_base.inject_Z 5000; Panes.movementY := 900%Z;
                Panes.container := Some (QArith_base.inject_Z 0, QArith_base.inject_Z 1000) |} in
  let near := {| Panes.clientX := QArith_base.inject_Z 300; Panes.movementY := (-5000)%Z;
                 Panes.container := Some (QArith_base.inject_Z 0, QArith_base.inject_Z 1000) |} in
  let events := [MouseDownHorz; MouseDownVert; MouseMove far; MouseMove near] in
  ltb (of_Z 20) (of_Z 60 : QArith_base.Q) = true
  ∧ ltb (of_Z 60 : QArith_base.Q) (of_Z 80) = true
  ∧ Panes.leftWidth (mouseSession events) = QArith_base.inject_Z 30
  ∧ Panes.scriptHeight (mouseSession events) = 200%Z
  ∧ ltb (of_Z 20) (Panes.leftWidth (mouseSession events)) = true.
Proof.
  intros far near events. split; [reflexivity|]. split; [reflexivity|].
  split; [reflexivity|]. split; [reflexivity|].
  exact (proj1 (mouseSession_bounds events eq_refl eq_refl)).
Defined.

(** ** The script renderer *)

Section ScriptFacts.
Implicit Types (s line pre v post : list N).

Lemma closing_found v post :
  93%N ∉ v → Forall (fun c => isLineTerminator c = false) v →
  closing (v ++ 93%N :: post) = Some (v, post).
Proof.
  induction v as [|c v IH]; intros Hclose Hterm; simpl.
  - done.
  - apply not_elem_of_cons in Hclose as [Hc Hclose].
    apply Forall_cons in Hterm as [Hct Hterm].
    apply N.eqb_neq in Hc. rewrite N.eqb_sym in Hc. rewrite Hc, Hct.
    by rewrite IH.
Qed.

Lemma closing_none s : 93%N ∉ s → closing s = None.
Proof.
  induction s as [|c s IH]; intros Hclose; simpl; [done|].
  apply not_elem_of_cons in Hclose as [Hc Hclose].
  apply N.eqb_neq in Hc. rewrite N.eqb_sym in Hc. rewrite Hc.
  destruct (isLineTerminator c); [done|]. by rewrite IH.
Qed.

Lemma closing_length s inside after :
  closing s = Some (inside, after) → s = inside ++ 93%N :: after.
Proof.
  revert inside after. induction s as [|c s IH]; intros inside after; simpl; [done|].
  destruct (c =? 93)%N eqn:Hc.
  - apply N.eqb_eq in Hc as ->. by intros [= <- <-].
  - destruct (isLineTerminator c); [done|].
    destruct (closing s) as [[i a]|]; [|done].
    intros [= <- <-]. by rewrite (IH i a eq_refl).
Qed.

(** The pieces and the matches, put together again, are the line. *)
Lemma splitFrom_concat fuel : ∀ s, concat (splitFrom fuel s) = s.
Proof.
  induction fuel as [|fuel IH]; intros s; simpl.
  - by rewrite app_nil_r.
  - destruct s as [|c rest]; [done|].
    destruct (if (c =? 91)%N then closing rest else None) as [[inside after]|] eqn:Hmatch.
    + destruct (c =? 91)%N; [|done]. apply closing_length in Hmatch as ->.
      simpl. rewrite IH. by rewrite <- app_assoc.
    + specialize (IH rest). destruct (splitFrom fuel rest) as [|piece pieces].
      * simpl in IH. by subst.
      * simpl in *. by rewrite IH.
Qed.

(** Where no match can start, the line is one piece. *)
Lemma splitFrom_one_piece fuel :
  ∀ s, 91%N ∉ s ∨ 93%N ∉ s → splitFrom fuel s = [s].
Proof.
  induction fuel as [|fuel IH]; intros s Hs; simpl; [done|].
  destruct s as [|c rest]; [done|].
  assert (Hrest : 91%N ∉ rest ∨ 93%N ∉ rest).
  { destruct Hs as [Hs | Hs]; apply not_elem_of_cons in Hs as [_ Hs]; [by left | by right]. }
  assert (Hmatch : (if (c =? 91)%N then closing rest else None) = None).
  { destruct (c =? 91)%N eqn:Hc; [|done]. destruct Hs as [Hs | Hs].
    - apply not_elem_of_cons in Hs as [Hne _]. apply N.eqb_eq in Hc. congruence.
    - apply not_elem_of_cons in Hs as [_ Hs]. by apply closing_none. }
  rewrite Hmatch. by rewrite IH.
Qed.

(** A piece without an opening bracket, then a match, then the rest. *)
Lemma splitFrom_match pre v post :
  91%N ∉ pre → 93%N ∉ v → Forall (fun c => isLineTerminator c = false) v →
  ∀ fuel, (length pre < fuel)%nat →
    splitFrom fuel (pre ++ 91%N :: v ++ 93%N :: post)
    = pre :: (91%N :: v ++ [93%N]) :: splitFrom (fuel - S (length pre)) post.
Proof.
  intros Hpre Hv Hterm. induction pre as [|c pre IH]; intros fuel Hfuel.
  - destruct fuel as [|fuel]; [simpl in Hfuel; lia|]. simpl.
    rewrite closing_found by done. by rewrite Nat.sub_0_r.
  - apply not_elem_of_cons in Hpre as [Hc Hpre].
    destruct fuel as [|fuel]; [simpl in Hfuel; lia|]. simpl in Hfuel |- *.
    apply N.eqb_neq in Hc. rewrite N.eqb_sym in Hc. rewrite Hc.
    by rewrite IH by (done || lia).
Qed.

(** With fuel for every position, more fuel changes nothing. *)
Lemma splitFrom_fuel fuel :
  ∀ s fuel', (length s ≤ fuel)%nat → (length s ≤ fuel')%nat →
    splitFrom fuel s = splitFrom fuel' s.
Proof.
  induction fuel as [|fuel IH]; intros s fuel' Hfuel Hfuel'.
  - destruct s; [|simpl in Hfuel; lia]. by destruct fuel'.
  - destruct s as [|c rest]; [by destruct fuel'|].
    destruct fuel' as [|fuel']; [simpl in Hfuel'; lia|]. simpl in *.
    destruct (if (c =? 91)%N then closing rest else None) as [[inside after]|] eqn:Hmatch.
    + destruct (c =? 91)%N; [|done]. apply closing_length in Hmatch as Hrest.
      rewrite (IH after fuel'); [done | | ]; rewrite Hrest, length_app in *; simpl in *; lia.
    + rewrite (IH rest fuel') by lia. done.
Qed.

(** X25. Splitting a line at its bracketed instructions loses nothing: the parts,
    joined, are the line. *)
Theorem splitBrackets_concat line : concat (splitBrackets line) = line.
Proof. apply splitFrom_concat. Qed.

Lemma isBracketed_no_open part : 91%N ∉ part → isBracketed part = false.
Proof.
  destruct part as [|c part]; [done|]. intros Hopen. simpl.
  apply not_elem_of_cons in Hopen as [Hc _].
  apply N.eqb_neq in Hc. rewrite N.eqb_sym in Hc. by rewrite Hc.
Qed.

Lemma isBracketed_no_close part : 93%N ∉ part → isBracketed part = false.
Proof.
  destruct part as [|c part]; [done|]. intros Hclose. simpl.
  rewrite bool_decide_eq_false_2; [apply andb_false_r|].
  intros Hlast. apply Hclose. by apply last_Some_elem_of.
Qed.

Lemma removeBrackets_instruction v :
  removeBrackets (91%N :: v ++ [93%N]) = removeBrackets v.
Proof.
  unfold removeBrackets.
  rewrite filter_cons_False by (intros [? _]; done).
  rewrite filter_app, filter_cons_False by (intros [_ ?]; done).
  by rewrite filter_nil, app_nil_r.
Qed.

(** X26. A line of dialogue, then an instruction in brackets, then the rest: the
    dialogue before the instruction is shown as it is (or not at all when it
    is white space only), the instruction is shown as a visual block without
    its brackets, and the rest is rendered as if it stood alone. *)
Theorem renderParts_instruction pre v post :
  91%N ∉ pre → 93%N ∉ v → Forall (fun c => isLineTerminator c = false) v →
  renderParts (pre ++ 91%N :: v ++ 93%N :: post)
  = (if blank pre then None else Some (Dialog pre))
    :: Some (Visual (removeBrackets v))
    :: renderParts post.
Proof.
  intros Hpre Hv Hterm. unfold renderParts, splitBrackets.
  rewrite (splitFrom_match pre v post Hpre Hv Hterm)
    by (rewrite length_app; simpl; lia).
  rewrite (splitFrom_fuel _ post (length post))
    by (rewrite ?length_app; simpl; rewrite ?length_app; simpl; lia).
  rewrite !fmap_cons. f_equal; [|f_equal].
  - unfold renderPart. rewrite (isBracketed_no_open pre Hpre). by destruct (blank pre).
  - unfold renderPart.
    assert (Hbracketed : isBracketed (91%N :: v ++ [93%N]) = true).
    { simpl. apply bool_decide_eq_true.
      change (91%N :: v ++ [93%N]) with ((91%N :: v) ++ [93%N]). apply last_snoc. }
    by rewrite Hbracketed, removeBrackets_instruction.
Qed.

(** X27. A line in which no instruction can be found, for want of an opening or
    of a closing bracket, is shown whole as dialogue, brackets included; a
    line of white space is a spacer. *)
Theorem renderLine_plain line :
  91%N ∉ line ∨ 93%N ∉ line →
  renderLine line = if blank line then Spacer else Paragraph [Some (Dialog line)].
Proof.
  intros Hline. unfold renderLine, renderParts, splitBrackets.
  destruct (blank line) eqn:Hblank; [done|].
  rewrite splitFrom_one_piece by done. simpl. unfold renderPart. rewrite Hblank. simpl.
  by destruct Hline as [Hopen | Hclose];
    [rewrite isBracketed_no_open | rewrite isBracketed_no_close].
Qed.
End ScriptFacts.

Lemma renderParts_instruction_witness :
  let pre := codeUnits "Hello " in
  let v := codeUnits "Show map of Ukraine" in
  let post := codeUnits " world" in
  (91%N ∉ pre)
  ∧ (93%N ∉ v)
  ∧ Forall (fun c => isLineTerminator c = false) v
  ∧ renderScript (codeUnits "Hello [Show map of Ukraine] world")
    = [Paragraph [Some (Dialog pre); Some (Visual v); Some (Dialog post)]].
Proof.
  intros pre v post.
  assert (Hpre : 91%N ∉ pre) by (apply (bool_decide_unpack _); vm_compute; exact I).
  assert (Hv : 93%N ∉ v) by (apply (bool_decide_unpack _); vm_compute; exact I).
  assert (Hterm : Forall (fun c => isLineTerminator c = false) v)
    by (apply (bool_decide_unpack _); vm_compute; exact I).
  split; [exact Hpre|]. split; [exact Hv|]. split; [exact Hterm|].
  change (renderScript (codeUnits "Hello [Show map of Ukraine] world"))
    with [renderLine (pre ++ 91%N :: v ++ 93%N :: post)].
  unfold renderLine.
  rewrite (renderParts_instruction pre v post Hpre Hv Hterm).
  vm_compute. reflexivity.
Defined.

Lemma renderLine_plain_witness :
  let line := codeUnits "An [unfinished instruction" in
  (91%N ∉ line ∨ 93%N ∉ line)
  ∧ renderLine line = Paragraph [Some (Dialog line)].
Proof.
  intros line.
  assert (Hclose : 93%N ∉ line) by (apply (bool_decide_unpack _); vm_compute; exact I).
  split; [by right|].
  rewrite (renderLine_plain line (or_intror Hclose)). vm_compute. reflexivity.
Defined.

(** ** Examples in the concrete runtime *)

Lemma generateContentKit_outcomes_witness :
  let item := Scripted.headline "news-1" "Summit ends" in
  let call := retryOperation (generateContent (kitRequest item)) in
  let down := Scripted.start [Rejected Scripted.serverError] in
  let mute := Scripted.start [Resolved (Scripted.groundedResponse [])] in
  let kit := Scripted.kit ["summit"] in
  let fine := Scripted.start [Resolved (Scripted.textResponse (Scripted.kitText kit))] in
  truthy (apiKey None) = false
  ∧ generateContentKit None item down
    = (Rejected (Error "API Key not found in environment variables"), down)
  ∧ truthy (apiKey (Some "key")) = true
  ∧ call down = (Rejected Scripted.serverError, snd (call down))
  ∧ generateContentKit (Some "key") item down = (Rejected Scripted.serverError, snd (call down))
  ∧ call mute = (Resolved (Scripted.groundedResponse []), snd (call mute))
  ∧ generateContentKit (Some "key") item mute
    = (Rejected (Error "No content generated"), snd (call mute))
  ∧ call fine = (Resolved (Scripted.textResponse (Scripted.kitText kit)), snd (call fine))
  ∧ generateContentKit (Some "key") item fine = (Resolved kit, snd (call fine)).
Proof.
  intros item call down mute kit fine.
  assert (Hdown : call down = (Rejected Scripted.serverError, snd (call down)))
    by (vm_compute; reflexivity).
  assert (Hmute : call mute = (Resolved (Scripted.groundedResponse []), snd (call mute)))
    by (vm_compute; reflexivity).
  assert (Hfine : call fine
                  = (Resolved (Scripted.textResponse (Scripted.kitText kit)), snd (call fine)))
    by (vm_compute; reflexivity).
  split; [reflexivity|]. split.
  { exact (proj1 (generateContentKit_outcomes None item down) eq_refl). }
  split; [reflexivity|]. split; [exact Hdown|]. split.
  { exact (proj1 (proj2 (generateContentKit_outcomes (Some "key") item down) eq_refl)
             _ _ Hdown). }
  split; [exact Hmute|]. split.
  { exact (proj1 (proj2 (proj2 (generateContentKit_outcomes (Some "key") item mute) eq_refl))
             _ _ Hmute eq_refl). }
  split; [exact Hfine|].
  rewrite (proj2 (proj2 (proj2 (generateContentKit_outcomes (Some "key") item fine) eq_refl))
             _ _ (Scripted.kitText kit) Hfine eq_refl eq_refl).
  vm_compute. reflexivity.
Defined.

Lemma fetchPoliticalNews_outcomes_witness :
  let call := retryOperation (generateContent newsRequest) in
  let down := Scripted.start [Rejected Scripted.serverError] in
  let mute := Scripted.start [Resolved (Scripted.textResponse "")] in
  let broken := Scripted.start [Resolved (Scripted.textResponse "[")] in
  truthy (apiKey None) = false
  ∧ fetchPoliticalNews None down
    = (Rejected (Error "API Key not found in environment variables"), down)
  ∧ truthy (apiKey (Some "key")) = true
  ∧ call down = (Rejected Scripted.serverError, snd (call down))
  ∧ fetchPoliticalNews (Some "key") down = (Rejected Scripted.serverError, snd (call down))
  ∧ call mute = (Resolved (Scripted.textResponse ""), snd (call mute))
  ∧ fetchPoliticalNews (Some "key") mute = (Resolved [], snd (call mute))
  ∧ call broken = (Resolved (Scripted.textResponse "["), snd (call broken))
  ∧ fetchPoliticalNews (Some "key") broken = (Rejected Json.SyntaxError, snd (call broken)).
Proof.
  intros call down mute broken.
  assert (Hdown : call down = (Rejected Scripted.serverError, snd (call down)))
    by (vm_compute; reflexivity).
  assert (Hmute : call mute = (Resolved (Scripted.textResponse ""), snd (call mute)))
    by (vm_compute; reflexivity).
  assert (Hbroken : call broken = (Resolved (Scripted.textResponse "["), snd (call broken)))
    by (vm_compute; reflexivity).
  split; [reflexivity|]. split.
  { exact (proj1 (fetchPoliticalNews_outcomes None down) eq_refl). }
  split; [reflexivity|]. split; [exact Hdown|]. split.
  { exact (proj1 (proj2 (fetchPoliticalNews_outcomes (Some "key") down) eq_refl) _ _ Hdown). }
  split; [exact Hmute|]. split.
  { exact (proj1 (proj2 (proj2 (fetchPoliticalNews_outcomes (Some "key") mute) eq_refl))
             _ _ Hmute eq_refl). }
  split; [exact Hbroken|].
  exact (proj2 (proj2 (proj2 (fetchPoliticalNews_outcomes (Some "key") broken) eq_refl))
           _ _ "[" Json.SyntaxError Hbroken eq_refl eq_refl eq_refl).
Defined.

Lemma fetchPoliticalNews_items_witness :
  let parsed := [Scripted.headline "" "A"; Scripted.headline "" "B"; Scripted.headline "" "A"] in
  let text := Scripted.newsText parsed in
  let w := Scripted.start [Resolved (Scripted.textResponse text)] in
  let w' := snd (retryOperation (generateContent newsRequest) w) in
  truthy (apiKey (Some "key")) = true
  ∧ retryOperation (generateContent newsRequest) w
    = (Resolved (Scripted.textResponse text), w')
  ∧ truthy text = true
  ∧ JSON_parse_news (W:=Scripted.World) text = Resolved parsed
  ∧ ∃ items w'',
      fetchPoliticalNews (Some "key") w = (Resolved items, w'')
      ∧ NewsItem.title <$> items = ["A"; "B"; "A"]
      ∧ NoDup (NewsItem.id <$> items).
Proof.
  intros parsed text w w'.
  assert (Hcall : retryOperation (generateContent newsRequest) w
                  = (Resolved (Scripted.textResponse text), w')) by (vm_compute; reflexivity).
  assert (Htext : truthy text = true) by (vm_compute; reflexivity).
  assert (Hparse : JSON_parse_news (W:=Scripted.World) text = Resolved parsed)
    by (vm_compute; reflexivity).
  split; [reflexivity|]. split; [exact Hcall|]. split; [exact Htext|]. split; [exact Hparse|].
  destruct (fetchPoliticalNews_items (Some "key") w w' (Scripted.textResponse text) text parsed
              eq_refl Hcall eq_refl Htext Hparse)
    as (items & w'' & Hfetch & _ & Htitles & _ & _ & _ & _ & _ & Hids).
  exists items, w''. split; [exact Hfetch|]. split; [|exact Hids].
  rewrite Htitles. reflexivity.
Defined.

Lemma handleFetchNews_exhausted_witness :
  let byStatus := JsError.mk (Some "Quota exhausted") (Some 429%Z) None in
  let op := generateContent newsRequest in
  let w := Scripted.start [Rejected byStatus; Rejected byStatus; Rejected byStatus] in
  let w1 := backoff 2000 0 (snd (op w)) in
  let w2 := backoff 2000 1 (snd (op w1)) in
  truthy (apiKey (Some "key")) = true
  ∧ RateLimited op 2000 0 2 w w2
  ∧ op w2 = (Rejected byStatus, snd (op w2))
  ∧ App.errorMsg (fst (handleFetchNews (Some "key") Scripted.emptyApp w))
    = Some "Failed to load news. Please check your internet connection.".
Proof.
  intros byStatus op w w1 w2.
  assert (Hrun : RateLimited op 2000 0 2 w w2).
  { eapply RateLimited_cons; [reflexivity | reflexivity |].
    eapply RateLimited_cons; [reflexivity | reflexivity | apply RateLimited_nil]. }
  split; [reflexivity|]. split; [exact Hrun|]. split; [reflexivity|].
  by rewrite (handleFetchNews_exhausted (Some "key") Scripted.emptyApp w w2 (snd (op w2))
                byStatus eq_refl Hrun eq_refl).
Defined.

Lemma handleProjectSave_last_wins_witness :
  let a := Scripted.headline "news-1" "A" in
  let other := Scripted.project "proj-0" a in
  let first := Scripted.project "proj-1" a in
  let second := SavedProject.mk "proj-1" a None "later" [] in
  SavedProject.id first = SavedProject.id second
  ∧ handleProjectSave second (handleProjectSave first [other]) = [second; other]
  ∧ handleProjectSave second (handleProjectSave first [other; first]) = [other; second].
Proof.
  intros a other first second. split; [reflexivity|]. split.
  - rewrite (handleProjectSave_last_wins first second [other] eq_refl). reflexivity.
  - rewrite (handleProjectSave_last_wins first second [other; first] eq_refl). reflexivity.
Defined.

Lemma handleGlobalImport_again_witness :
  let a := Scripted.project "proj-1" (Scripted.headline "news-1" "A") in
  let b := Scripted.project "proj-2" (Scripted.headline "news-2" "B") in
  let text := Json.stringify_projects [a; b] in
  JSON_parse (W:=Scripted.World) text = Resolved (JsonArray [a; b])
  ∧ handleGlobalImport (W:=Scripted.World) (Some text) [b; a]
    = ([b; a], Some "Imported 2 projects.")
  ∧ handleGlobalImport (W:=Scripted.World) (Some text)
      (fst (handleGlobalImport (W:=Scripted.World) (Some text) [b]))
    = ([a; b], Some "Imported 2 projects.").
Proof.
  intros a b text.
  assert (Hparse : JSON_parse (W:=Scripted.World) text = Resolved (JsonArray [a; b]))
    by (vm_compute; reflexivity).
  split; [exact Hparse|]. split.
  - rewrite (proj1 (handleGlobalImport_again text [a; b] [b; a] Hparse)); [reflexivity|].
    intros j Hj. apply (bool_decide_unpack _).
    apply elem_of_cons in Hj as [-> | Hj]; [vm_compute; exact I|].
    apply elem_of_cons in Hj as [-> | Hj]; [vm_compute; exact I|].
    by apply elem_of_nil in Hj.
  - rewrite (proj2 (handleGlobalImport_again text [a; b] [b] Hparse)).
    vm_compute. reflexivity.
Defined.

Lemma handleGlobalImport_into_empty_witness :
  let a := Scripted.project "proj-1" (Scripted.headline "news-1" "A") in
  let b := Scripted.project "proj-1" (Scripted.headline "news-2" "B") in
  let text := Json.stringify_projects [a; b] in
  JSON_parse (W:=Scripted.World) text = Resolved (JsonArray [a; b])
  ∧ fst (handleGlobalImport (W:=Scripted.World) (Some text) []) = [a; b].
Proof.
  intros a b text.
  assert (Hparse : JSON_parse (W:=Scripted.World) text = Resolved (JsonArray [a; b]))
    by (vm_compute; reflexivity).
  split; [exact Hparse|].
  exact (proj1 (handleGlobalImport_into_empty text [a; b] [] Hparse)).
Defined.

Lemma initialSavedProjects_edges_witness :
  let empty : gmap string string := {[ "policast_saved" := "" ]} in
  let corrupt : gmap string string := {[ "policast_saved" := "[{" ]} in
  initialSavedProjects (W:=Scripted.World) ∅ = Resolved (JsonArray [])
  ∧ initialSavedProjects (W:=Scripted.World) empty = Resolved (JsonArray [])
  ∧ JSON_parse (W:=Scripted.World) "[{" = Rejected Json.SyntaxError
  ∧ initialSavedProjects (W:=Scripted.World) corrupt = Rejected Json.SyntaxError.
Proof.
  intros empty corrupt. split.
  { exact (proj1 (initialSavedProjects_edges (W:=Scripted.World) ∅) (or_introl eq_refl)). }
  split.
  { exact (proj1 (initialSavedProjects_edges (W:=Scripted.World) empty) (or_intror eq_refl)). }
  split; [reflexivity|].
  exact (proj2 (initialSavedProjects_edges (W:=Scripted.World) corrupt)
           "[{" Json.SyntaxError eq_refl eq_refl eq_refl).
Defined.

Lemma syncSavedProjects_last_write_witness :
  let a := Scripted.project "proj-1" (Scripted.headline "news-1" "A") in
  let b := Scripted.project "proj-2" (Scripted.headline "news-2" "B") in
  truthy (JSON_stringify (W:=Scripted.World) [b]) = true
  ∧ initialSavedProjects (W:=Scripted.World)
      (syncSavedProjects (W:=Scripted.World) [b]
         (foldl (fun ls ps => syncSavedProjects (W:=Scripted.World) ps ls) ∅ [[a]; [b; a]; []]))
    = Resolved (JsonArray [b]).
Proof.
  intros a b.
  assert (Htext : truthy (JSON_stringify (W:=Scripted.World) [b]) = true)
    by (vm_compute; reflexivity).
  split; [exact Htext|].
  rewrite (proj2 (syncSavedProjects_last_write (W:=Scripted.World) [[a]; [b; a]; []] [b] ∅
                    Htext)).
  vm_compute. reflexivity.
Defined.

Lemma handleGenerate_outcomes_witness :
  let item := Scripted.headline "news-1" "Summit ends" in
  let p := {| DetailView.newsItem := item; DetailView.existingProject := None |} in
  let kit := Scripted.kit ["summit"] in
  let down := Scripted.start [Rejected Scripted.serverError] in
  let noImages :=
    Scripted.start [Resolved (Scripted.textResponse (Scripted.kitText kit));
                    Rejected Scripted.serverError] in
  fst (generateContentKit (Some "key") item down) = Rejected Scripted.serverError
  ∧ snd (fst (handleGenerate (Some "key") handleProjectSave p (initialDetailView p) [] down)) = []
  ∧ fst (generateContentKit (Some "key") item noImages) = Resolved kit
  ∧ (SavedProject.groundingImages
       <$> snd (fst (handleGenerate (Some "key") handleProjectSave p (initialDetailView p) []
                       noImages))) = [[]]
  ∧ DetailView.error
      (fst (fst (handleGenerate (Some "key") handleProjectSave p (initialDetailView p) []
                   noImages))) = None.
Proof.
  intros item p kit down noImages.
  assert (Hdown : generateContentKit (Some "key") item down
                  = (Rejected Scripted.serverError,
                     snd (generateContentKit (Some "key") item down)))
    by (vm_compute; reflexivity).
  assert (Hkit : generateContentKit (Some "key") item noImages
                 = (Resolved kit, snd (generateContentKit (Some "key") item noImages)))
    by (vm_compute; reflexivity).
  split; [by rewrite Hdown|]. split.
  { by rewrite (proj1 (handleGenerate_outcomes (Some "key") handleProjectSave p
                         (initialDetailView p) [] down) _ _ Hdown). }
  split; [by rewrite Hkit|].
  assert (Hsearch : retryOperation
                      (generateContent (imageSearchRequest (GeneratedContent.imageQueries kit)))
                      (snd (generateContentKit (Some "key") item noImages))
                    = (Rejected Scripted.serverError,
                       snd (retryOperation
                              (generateContent
                                 (imageSearchRequest (GeneratedContent.imageQueries kit)))
                              (snd (generateContentKit (Some "key") item noImages)))))
    by (vm_compute; reflexivity).
  rewrite (proj1 (proj2 (handleGenerate_outcomes (Some "key") handleProjectSave p
                           (initialDetailView p) [] noImages))
             kit _ Scripted.serverError _ Hkit ltac:(discriminate) Hsearch).
  split; [vm_compute; reflexivity | reflexivity].
Defined.

Lemma handleLocalSave_in_place_witness :
  let item := Scripted.headline "news-1" "Summit ends" in
  let existing := Scripted.project "proj-1" item in
  let other := Scripted.project "proj-0" item in
  let p := {| DetailView.newsItem := item; DetailView.existingProject := Some existing |} in
  let st := initialDetailView p in
  let w := Scripted.start [] in
  truthy (SavedProject.id existing) = true
  ∧ SavedProject.id existing ∈ SavedProject.id <$> [other; existing]
  ∧ DetailView.content st = Some (Scripted.kit ["q1"])
  ∧ SavedProject.id <$> fst (handleLocalSave handleProjectSave p st [other; existing] w)
    = ["proj-0"; "proj-1"].
Proof.
  intros item existing other p st w.
  assert (Hin : SavedProject.id existing ∈ SavedProject.id <$> [other; existing])
    by (apply (bool_decide_unpack _); vm_compute; exact I).
  split; [reflexivity|]. split; [exact Hin|]. split; [reflexivity|].
  by rewrite (proj1 (handleLocalSave_in_place p st existing (Scripted.kit ["q1"])
                       [other; existing] w eq_refl eq_refl Hin eq_refl)).
Defined.

Lemma handleLocalSave_twice_witness :
  let item := Scripted.headline "news-1" "Summit ends" in
  let p := {| DetailView.newsItem := item; DetailView.existingProject := None |} in
  let st := {| DetailView.loading := false; DetailView.content := Some (Scripted.kit ["q1"]);
               DetailView.groundingImages := []; DetailView.error := None |} in
  let w := Scripted.start [] in
  let once := handleLocalSave handleProjectSave p st [] w in
  let twice := handleLocalSave handleProjectSave p st (fst once) (snd once) in
  fst (Date_now w) ≠ fst (Date_now (snd once))
  ∧ SavedProject.id <$> fst twice = ["proj-1700000000002"; "proj-1700000000000"]
  ∧ SavedProject.newsItem <$> fst twice = [item; item].
Proof.
  intros item p st w once twice.
  assert (Hclock : fst (Date_now w) ≠ fst (Date_now (snd once))) by (vm_compute; discriminate).
  split; [exact Hclock|].
  destruct (handleLocalSave_twice p st (Scripted.kit ["q1"]) [] w eq_refl eq_refl Hclock
              ltac:(apply not_elem_of_nil) ltac:(apply not_elem_of_nil))
    as (first & second & Htwice & Hid1 & Hid2 & _ & Hnews1 & Hnews2).
  fold once in Htwice, Hid2. fold twice in Htwice. rewrite Htwice. simpl.
  rewrite Hid1, Hid2, Hnews1, Hnews2. split; [vm_compute; reflexivity | reflexivity].
Defined.
